(** * GOST video signer: the SEI watermark protocol

    A shallow embedding of [gost_video_signer.py] (class
    [GOSTVideoSteganographer]): the Annex-B start-code scanner, the SEI
    payload writer and reader, the insertion point selector, the embedder
    and the extractor, followed by the properties of the watermark
    protocol.

    Conventions of the embedding.
    - A [bytes] object is a [list byte]; indexing it yields a Python
      integer, modelled in [Z].
    - Every Python integer (offsets, lengths, the [-1] sentinel) is a [Z].
    - A computation that may raise is a [result]; [Raise] carries the
      exception.  A [while] loop is a [Fixpoint] on a fuel counter, and the
      functions pass enough fuel for every run of the loop; [OutOfFuel] is
      the result of a loop that was cut short, which the theorems exclude.
    - [print] calls are dropped, except where a claim is about what is
      logged. *)

From Stdlib Require Import ZArith Lia.
From Stdlib Require Import Init.Byte.
From Stdlib Require Strings.Byte.
From stdpp Require Import base tactics option list numbers strings gmap.

Local Open Scope Z_scope.

(** [lia] also decides goals with division and remainder by a constant. *)
Ltac Zify.zify_post_hook ::= Z.to_euclidean_division_equations.

(** ** Results and exceptions *)

Inductive exn : Type :=
  | IndexError
  | ValueError
  | FileNotFoundError.

Inductive result (A : Type) : Type :=
  | Ok (a : A)
  | Raise (e : exn)
  | OutOfFuel.

Arguments Ok {A} a.
Arguments Raise {A} e.
Arguments OutOfFuel {A}.

Definition bind {A B : Type} (m : result A) (k : A -> result B) : result B :=
  match m with
  | Ok a => k a
  | Raise e => Raise e
  | OutOfFuel => OutOfFuel
  end.

Notation "'do' x <- m ; k" := (bind m (fun x => k))
  (at level 10, x name, m at level 100, k at level 200,
   format "'[v' 'do'  x  <-  m ; '/' k ']'").
Notation "'do' ' p <- m ; k" := (bind m (fun x => let 'p := x in k))
  (at level 10, p pattern, m at level 100, k at level 200,
   format "'[v' 'do'  ' p  <-  m ; '/' k ']'").

(** [a and b] on computations: [b] is not run when [a] is false. *)
Definition and_then (a b : result bool) : result bool :=
  do x <- a; if x then b else Ok false.

(** ** Bytes objects *)

#[global] Instance byte_eq_dec : EqDecision byte := Strings.Byte.byte_eq_dec.

(** The integer that indexing a bytes object yields. *)
Definition byte_val (b : byte) : Z := Z.of_N (Strings.Byte.to_N b).

(** [bytearray.append(v)]: the byte of value [v], [ValueError] outside
    [range(256)]. *)
Definition byte_of_int (v : Z) : result byte :=
  if v <? 0 then Raise ValueError
  else match Strings.Byte.of_N (Z.to_N v) with
       | Some b => Ok b
       | None => Raise ValueError
       end.

Definition len (data : list byte) : Z := Z.of_nat (length data).

(** [data[i]]: a negative index counts from the end, an index out of range
    raises [IndexError]. *)
Definition getitem (data : list byte) (i : Z) : result Z :=
  let j := if i <? 0 then i + len data else i in
  if (j <? 0) || (len data <=? j) then Raise IndexError
  else match data !! Z.to_nat j with
       | Some b => Ok (byte_val b)
       | None => Raise IndexError
       end.

(** A slice bound: negative bounds count from the end, and bounds are
    clamped to [0, len]. *)
Definition clamp (data : list byte) (i : Z) : nat :=
  Z.to_nat (Z.min (len data) (if i <? 0 then Z.max 0 (i + len data) else i)).

(** [data[:hi]], [data[lo:]] and [data[lo:hi]]. *)
Definition slice_to (data : list byte) (hi : Z) : list byte :=
  take (clamp data hi) data.
Definition slice_from (data : list byte) (lo : Z) : list byte :=
  drop (clamp data lo) data.
Definition slice (data : list byte) (lo hi : Z) : list byte :=
  take (clamp data hi - clamp data lo)%nat (drop (clamp data lo) data).

(** ** Constants of the format *)

(** [b'\x00\x00\x00\x01'] *)
Definition start_code : list byte := [x00; x00; x00; x01].

(** [b'GOST_SIGNATURE_V1'] *)
Definition uuid : list byte :=
  [x47; x4f; x53; x54; x5f; x53; x49; x47; x4e; x41; x54; x55; x52; x45;
   x5f; x56; x31].

(** ** [_find_next_start_code] *)

(** The test [data[i] == 0 and data[i+1] == 0 and data[i+2] == 0 and
    data[i+3] == 1] of the scanning loops. *)
Definition is_start_code (data : list byte) (i : Z) : result bool :=
  and_then (do b <- getitem data i; Ok (b =? 0))
 (and_then (do b <- getitem data (i + 1); Ok (b =? 0))
 (and_then (do b <- getitem data (i + 2); Ok (b =? 0))
           (do b <- getitem data (i + 3); Ok (b =? 1)))).

Fixpoint find_next_loop (fuel : nat) (data : list byte) (i : Z) : result Z :=
  match fuel with
  | O => OutOfFuel
  | S fuel =>
      if i <? len data - 4 then
        do sc <- is_start_code data i;
        if sc then Ok i else find_next_loop fuel data (i + 1)
      else Ok (-1)
  end.

Definition _find_next_start_code (data : list byte) (start_pos : Z) : result Z :=
  find_next_loop (S (Z.to_nat (len data - 4 - start_pos))) data start_pos.

(** ** [_create_sei_payload] *)

(** The loop [while payload_size >= 255: append(0xFF); payload_size -= 255]
    on the unit built so far. *)
Fixpoint size_loop (fuel : nat) (sei_nal_unit : list byte) (payload_size : Z)
  : result (list byte * Z) :=
  match fuel with
  | O => OutOfFuel
  | S fuel =>
      if 255 <=? payload_size then
        size_loop fuel (sei_nal_unit ++ [xff]) (payload_size - 255)
      else Ok (sei_nal_unit, payload_size)
  end.

(** Lines 179-183: the size loop and the terminal byte, appended to
    [sei_nal_unit]. *)
Definition append_chunked (sei_nal_unit : list byte) (v : Z) : result (list byte) :=
  do '(sei_nal_unit, payload_size) <- size_loop (S (Z.to_nat v)) sei_nal_unit v;
  do b <- byte_of_int payload_size;
  Ok (sei_nal_unit ++ [b]).

Definition _create_sei_payload (signature : list byte) : result (list byte) :=
  let payload_data := uuid ++ signature in
  let sei_nal_unit := [] in
  let sei_nal_unit := sei_nal_unit ++ start_code in
  let sei_nal_unit := sei_nal_unit ++ [x06] in
  let sei_nal_unit := sei_nal_unit ++ [x05] in
  do sei_nal_unit <- append_chunked sei_nal_unit (len payload_data);
  let sei_nal_unit := sei_nal_unit ++ payload_data in
  let sei_nal_unit := sei_nal_unit ++ [x80] in
  Ok sei_nal_unit.

(** ** [_find_position_after_sps_pps] *)

Fixpoint after_sps_pps_loop (fuel : nat) (video_data : list byte)
    (i last_sps_pps_pos : Z) : result Z :=
  match fuel with
  | O => OutOfFuel
  | S fuel =>
      if i <? len video_data - 8 then
        do sc <- is_start_code video_data i;
        if sc then
          do h <- getitem video_data (i + 4);
          let nal_unit_type := Z.land h 0x1F in
          if (nal_unit_type =? 7) || (nal_unit_type =? 8) then
            let last_sps_pps_pos := i in
            do next_start <- _find_next_start_code video_data (i + 4);
            if negb (next_start =? -1) then
              do h' <- getitem video_data (next_start + 4);
              let nal_unit_type_next := Z.land h' 0x1F in
              if negb (nal_unit_type_next =? 7) && negb (nal_unit_type_next =? 8)
              then Ok next_start
              else after_sps_pps_loop fuel video_data (i + 4) last_sps_pps_pos
            else after_sps_pps_loop fuel video_data (i + 4) last_sps_pps_pos
          else after_sps_pps_loop fuel video_data (i + 4) last_sps_pps_pos
        else after_sps_pps_loop fuel video_data (i + 1) last_sps_pps_pos
      else Ok (last_sps_pps_pos + 100)
  end.

Definition _find_position_after_sps_pps (video_data : list byte) : result Z :=
  after_sps_pps_loop (S (length video_data)) video_data 0 0.

(** ** [_find_best_insertion_point] *)

(** The code after the loop, reached when the loop condition fails and on
    [break]. *)
Definition insertion_fallback (video_data : list byte) (sps_found pps_found : bool)
  : result Z :=
  if sps_found && pps_found then _find_position_after_sps_pps video_data
  else Ok 0.

Fixpoint insertion_loop (fuel : nat) (video_data : list byte) (i : Z)
    (sps_found pps_found : bool) : result Z :=
  match fuel with
  | O => OutOfFuel
  | S fuel =>
      if i <? len video_data - 8 then
        do sc <- is_start_code video_data i;
        if sc then
          do h <- getitem video_data (i + 4);
          let nal_unit_type := Z.land h 0x1F in
          (* the code after the if/elif chain: on to the next NAL unit *)
          let next_nal (sps_found pps_found : bool) : result Z :=
            do next_start <- _find_next_start_code video_data (i + 4);
            if next_start =? -1 then insertion_fallback video_data sps_found pps_found
            else insertion_loop fuel video_data next_start sps_found pps_found in
          if nal_unit_type =? 7 then next_nal true pps_found
          else if nal_unit_type =? 8 then next_nal sps_found true
          else if (nal_unit_type =? 1) && sps_found && pps_found then Ok i
          else if nal_unit_type =? 6 then
            do next_start <- _find_next_start_code video_data (i + 4);
            if negb (next_start =? -1) then Ok next_start
            else next_nal sps_found pps_found
          else next_nal sps_found pps_found
        else insertion_loop fuel video_data (i + 1) sps_found pps_found
      else insertion_fallback video_data sps_found pps_found
  end.

Definition _find_best_insertion_point (video_data : list byte) : result Z :=
  insertion_loop (S (length video_data)) video_data 0 false false.

(** ** [_embed_in_sei_messages] *)

Definition _embed_in_sei_messages (video_data signature : list byte)
  : result (list byte) :=
  do sei_payload <- _create_sei_payload signature;
  do insertion_point <- _find_best_insertion_point video_data;
  let insertion_point := if insertion_point =? -1 then 0 else insertion_point in
  let watermarked_data :=
    slice_to video_data insertion_point ++ sei_payload
      ++ slice_from video_data insertion_point in
  Ok watermarked_data.

(** ** [_parse_sei_and_get_length] *)

(** [while pos < len(video_data) and video_data[pos] == 0xFF: acc += 0xFF;
    pos += 1], returning the accumulator and the position. *)
Fixpoint ff_loop (fuel : nat) (video_data : list byte) (acc pos : Z)
  : result (Z * Z) :=
  match fuel with
  | O => OutOfFuel
  | S fuel =>
      do c <- and_then (Ok (pos <? len video_data))
                       (do b <- getitem video_data pos; Ok (b =? 0xFF));
      if c then ff_loop fuel video_data (acc + 0xFF) (pos + 1)
      else Ok (acc, pos)
  end.

(** Reading one chunked field (lines 375-383 for the payload type, 386-394
    for the payload size): the value and the position after it, or [None]
    where the source returns [(None, 0)]. *)
Definition read_chunked (video_data : list byte) (pos : Z) : result (option (Z * Z)) :=
  do '(acc, pos) <- ff_loop (S (Z.to_nat (len video_data - pos))) video_data 0 pos;
  if pos <? len video_data then
    do b <- getitem video_data pos;
    Ok (Some (acc + b, pos + 1))
  else Ok None.

(** [bytes = 1; while temp >= 255: bytes += 1; temp -= 255] *)
Fixpoint count_loop (fuel : nat) (nbytes temp : Z) : result Z :=
  match fuel with
  | O => OutOfFuel
  | S fuel =>
      if 255 <=? temp then count_loop fuel (nbytes + 1) (temp - 255)
      else Ok nbytes
  end.

Definition field_bytes (v : Z) : result Z := count_loop (S (Z.to_nat v)) 1 v.

Definition _parse_sei_and_get_length (video_data : list byte) (start_pos : Z)
  : result (option (list byte) * Z) :=
  let pos := start_pos + 4 in
  if len video_data <=? pos then Ok (None, 0) else
  do nal_header <- getitem video_data pos;
  let pos := pos + 1 in
  do r <- read_chunked video_data pos;
  match r with
  | None => Ok (None, 0)
  | Some (payload_type, pos) =>
  do r <- read_chunked video_data pos;
  match r with
  | None => Ok (None, 0)
  | Some (payload_size, pos) =>
      if (payload_type =? 5) && (pos + payload_size <=? len video_data) then
        let payload_data := slice video_data pos (pos + payload_size) in
        if bool_decide (slice_to payload_data (len uuid) = uuid) then
          let signature := slice_from payload_data (len uuid) in
          if len signature =? 64 then
            do payload_type_bytes <- field_bytes payload_type;
            do payload_size_bytes <- field_bytes payload_size;
            let sei_length :=
              4 + 1 + payload_type_bytes + payload_size_bytes + payload_size + 1 in
            Ok (Some signature, sei_length)
          else Ok (None, 0)
        else Ok (None, 0)
      else Ok (None, 0)
  end end.

(** ** [_extract_signature_and_remove_watermark] *)

(** Truth value of [signature], a bytes object or [None]. *)
Definition truthy (o : option (list byte)) : bool :=
  match o with
  | Some (_ :: _) => true
  | _ => false
  end.

Fixpoint extract_loop (fuel : nat) (watermarked_data : list byte) (i : Z)
  : result (option (list byte) * option (list byte)) :=
  match fuel with
  | O => OutOfFuel
  | S fuel =>
      if i <? len watermarked_data - 20 then
        do sc <- is_start_code watermarked_data i;
        if sc then
          do h <- getitem watermarked_data (i + 4);
          let nal_unit_type := Z.land h 0x1F in
          let next_nal : result (option (list byte) * option (list byte)) :=
            do next_start <- _find_next_start_code watermarked_data (i + 4);
            if next_start =? -1 then Ok (None, None)
            else extract_loop fuel watermarked_data next_start in
          if nal_unit_type =? 6 then
            do '(signature, sei_length) <- _parse_sei_and_get_length watermarked_data i;
            if truthy signature && (0 <? sei_length) then
              let start_pos := i in
              let end_pos := i + sei_length in
              let restored_data :=
                slice_to watermarked_data start_pos
                  ++ slice_from watermarked_data end_pos in
              Ok (signature, Some restored_data)
            else next_nal
          else next_nal
        else extract_loop fuel watermarked_data (i + 1)
      else Ok (None, None)
  end.

Definition _extract_signature_and_remove_watermark (watermarked_data : list byte)
  : result (option (list byte) * option (list byte)) :=
  extract_loop (S (length watermarked_data)) watermarked_data 0.

(** ** Files and the library objects *)

(** The file system: the content of every file that exists, by path. *)
Abbreviation files := (gmap string (list byte)).

(** What the class takes from [gostcrypto] and [os.path]:
    [gosthash.new('streebog256')] fed with the whole content, the [verify]
    method of the signature object ([None] where it raises), and
    [os.path.splitext(path)[0]]. *)
Class Env : Type := {
  streebog256 : list byte -> list byte;
  gost_verify : list byte -> list byte -> list byte -> option bool;
  splitext_base : string -> string;
}.

(** The attributes of a [GOSTVideoSteganographer]; [sign_obj] is [true]
    when the attribute holds a signature object and [false] when it is
    [None]. *)
Record GOSTVideoSteganographer : Type := {
  private_key : option (list byte);
  public_key : option (list byte);
  sign_obj : bool;
}.

(** The two lines that [verify_watermarked_video_self_contained] prints
    about sizes. *)
Inductive log_line : Type :=
  | ExpectedSize (n : Z)
  | ActualSize (n : Z).

(** [try: body except Exception: return handler] *)
Definition try_except {A : Type} (body : result A) (handler : A) : result A :=
  match body with
  | Ok a => Ok a
  | Raise _ => Ok handler
  | OutOfFuel => OutOfFuel
  end.

(** [open(path, 'rb').read()] *)
Definition read_file (fs : files) (path : string) : result (list byte) :=
  match fs !! path with
  | Some content => Ok content
  | None => Raise FileNotFoundError
  end.

(** [os.path.getsize(path)] *)
Definition getsize (fs : files) (path : string) : result Z :=
  match fs !! path with
  | Some content => Ok (len content)
  | None => Raise FileNotFoundError
  end.

(** [hash_video_file]: the digest of the content, read in chunks. *)
Definition hash_video_file `{Env} (fs : files) (file_path : string)
  : result (list byte) :=
  match fs !! file_path with
  | None => Raise FileNotFoundError
  | Some content => Ok (streebog256 content)
  end.

Definition verify_video `{Env} (self : GOSTVideoSteganographer) (fs : files)
    (file_path : string) (signature : list byte) : result bool :=
  match sign_obj self, public_key self with
  | true, Some pk =>
      do video_hash <- hash_video_file fs file_path;
      match gost_verify pk video_hash signature with
      | Some r => Ok r
      | None => Ok false
      end
  | _, _ => Raise ValueError
  end.

(** Returns the file system and [(signature, output_restored_path)], or
    [None] for [(None, None)]. *)
Definition extract_signature_and_restore_video `{Env} (fs : files)
    (watermarked_video_path : string) (output_restored_path : option string)
  : result (files * option (list byte * string)) :=
  try_except
    (do watermarked_data <- read_file fs watermarked_video_path;
     do '(signature, restored_data)
       <- _extract_signature_and_remove_watermark watermarked_data;
     match signature, restored_data with
     | Some (b :: s), Some (c :: r) =>
         let output_restored_path :=
           match output_restored_path with
           | Some path => path
           | None => splitext_base watermarked_video_path +:+ "_restored.h264"
           end in
         Ok (<[output_restored_path := c :: r]> fs,
             Some (b :: s, output_restored_path))
     | _, _ => Ok (fs, None)
     end)
    (fs, None).

(** Returns the file system, the size lines printed and the boolean. *)
Definition verify_watermarked_video_self_contained `{Env}
    (self : GOSTVideoSteganographer) (fs : files) (watermarked_video_path : string)
  : result (files * list log_line * bool) :=
  do '(fs, r) <- extract_signature_and_restore_video fs watermarked_video_path None;
  match r with
  | None => Ok (fs, [], false)
  | Some (signature, restored_video_path) =>
      if negb (truthy (Some signature)) || String.eqb restored_video_path ""
      then Ok (fs, [], false)
      else
        do is_valid <- verify_video self fs restored_video_path signature;
        do watermarked_size <- getsize fs watermarked_video_path;
        let original_size := watermarked_size - len signature - 16 - 11 in
        do restored_size <- getsize fs restored_video_path;
        let printed := [ExpectedSize original_size; ActualSize restored_size] in
        let fs :=
          if bool_decide (is_Some (fs !! restored_video_path))
          then delete restored_video_path fs else fs in
        Ok (fs, printed, is_valid)
  end.

(** ** Vocabulary of the properties *)

(** The bytes [bs] stand in [data] at offset [i]. *)
Definition at_pos (data : list byte) (i : Z) (bs : list byte) : Prop :=
  0 <= i /\ take (length bs) (drop (Z.to_nat i) data) = bs.

(** A start code stands at offset [i]. *)
Definition sc_at (data : list byte) (i : Z) : Prop := at_pos data i start_code.

(** A NAL unit of type [t] starts at offset [i]: a start code followed by a
    header byte whose low five bits are [t]. *)
Definition nal (data : list byte) (i t : Z) : Prop :=
  exists h, at_pos data i (start_code ++ [h]) /\ Z.land (byte_val h) 0x1F = t.

(** [r] is what a scan for the next start code from [s] finds: the first
    start code at an offset in [s, len - 4), or [-1] when there is none. *)
Definition next_sc (data : list byte) (s r : Z) : Prop :=
  (r = -1 /\ forall q, s <= q < len data - 4 -> ~ sc_at data q)
  \/ (s <= r < len data - 4 /\ sc_at data r
      /\ forall q, s <= q < r -> ~ sc_at data q).

(** The fields of a watermark unit that the reader checks stand at offset
    [p]: after the start code and the header byte, the payload type 5, the
    payload size 81, the tag and 64 bytes of signature. *)
Definition unit_at (data : list byte) (p : Z) (sig : list byte) : Prop :=
  at_pos data (p + 5) ([x05; x51] ++ uuid ++ sig) /\ length sig = 64%nat.

(** A unit that the extractor accepts starts at [p]: a NAL unit of type 6
    whose fields validate. *)
Definition valid_at (data : list byte) (p : Z) (sig : list byte) : Prop :=
  nal data p 6 /\ unit_at data p sig.

(** The reading loop of a chunked field stops at [pos]: the buffer ends
    there, or the byte there is not [0xFF]. *)
Definition ff_stop (data : list byte) (pos : Z) : Prop :=
  len data <= pos \/ exists b, data !! Z.to_nat pos = Some b /\ b <> xff.

(** Ceiling of [a / b], from the floor division of [Z]. *)
Definition ceil_div (a b : Z) : Z := - ((- a) / b).

(** What the extractor returns when it removes the unit at [p]: the
    signature, and the buffer without the span [p, p + 89). *)
Definition removed_at (data : list byte) (p : Z) (sig : list byte)
  : option (list byte) * option (list byte) :=
  (Some sig, Some (take (Z.to_nat p) data ++ drop (Z.to_nat (p + 89)) data)).

(** No unit that the extractor accepts starts in [lo, hi). *)
Definition none_valid (data : list byte) (lo hi : Z) : Prop :=
  forall q s, lo <= q < hi -> ~ valid_at data q s.

(** The on-wire unit of a 64-byte signature, as the format lays it out:
    start code, header [0x06], payload type [0x05], payload size [0x51], tag,
    signature, trailing byte [0x80]. *)
Definition sei_unit (sig : list byte) : list byte :=
  (start_code ++ [x06]) ++ ([x05; x51] ++ uuid ++ sig) ++ [x80].

(** A unit of type [t] starts before offset [i]. *)
Definition seen (data : list byte) (t i : Z) : Prop :=
  exists a, a < i /\ nal data a t.

(** The selecting scan meets a unit of type [t]: one starts more than 8
    bytes before the end of the buffer. *)
Definition scanned (data : list byte) (t : Z) : Prop :=
  exists a, a + 8 < len data /\ nal data a t.

(** A coded slice that the scan meets after a unit of each parameter-set
    type. *)
Definition qualifying_slice (data : list byte) (p : Z) : Prop :=
  nal data p 1 /\ p + 8 < len data /\ seen data 7 p /\ seen data 8 p.

(** A unit of type 6 that the scan meets, with a start code [r] after
    it. *)
Definition sei_with_follower (data : list byte) (p r : Z) : Prop :=
  nal data p 6 /\ p + 8 < len data /\ next_sc data (p + 4) r /\ r <> -1.

Definition param_set (data : list byte) (p : Z) : Prop :=
  nal data p 7 \/ nal data p 8.

(** The parameter-set unit at [p] is followed by the unit at [q], which is
    not a parameter set: a run of parameter sets ends at [q]. *)
Definition run_end (data : list byte) (p q : Z) : Prop :=
  p + 8 < len data /\ param_set data p
  /\ next_sc data (p + 4) q /\ q <> -1 /\ ~ param_set data q.

(** [q] is the end of the first run of parameter sets. *)
Definition first_run_end (data : list byte) (q : Z) : Prop :=
  exists p, run_end data p q /\ forall p' q', p' < p -> ~ run_end data p' q'.

(** [q] is the point right after the last run of parameter sets: the next
    start code after the last parameter-set unit of the buffer. *)
Definition after_last_param_run (data : list byte) (q : Z) : Prop :=
  exists p, param_set data p /\ (forall p', param_set data p' -> p' <= p)
    /\ next_sc data (p + 4) q.

(** Decidable form of [nal], to check concrete buffers. *)
Definition nalb (data : list byte) (i t : Z) : bool :=
  bool_decide (sc_at data i)
  && match data !! Z.to_nat (i + 4) with
     | Some h => Z.land (byte_val h) 0x1F =? t
     | None => false
     end.

(** ** Sample streams *)

Definition sig_ab : list byte := replicate 64 xab.
Definition sig_cd : list byte := replicate 64 xcd.

(** A parameter set of each type, then a coded slice at offset 12. *)
Definition video_sps_pps_slice : list byte :=
  [x00; x00; x00; x01; x67; xaa; x00; x00; x00; x01; x68; xbb;
   x00; x00; x00; x01; x41; x01; x02; x03; x04; x05; x06; x07; x08; x09; x0a].

(** The same stream once it carries the watermark of [sig_ab]. *)
Definition video_signed : list byte :=
  take 12 video_sps_pps_slice ++ sei_unit sig_ab ++ drop 12 video_sps_pps_slice.

(** An existing SEI unit, then the parameter sets, then a coded slice at
    offset 18. *)
Definition video_sei_first : list byte :=
  [x00; x00; x00; x01; x06; x01; x00; x00; x00; x01; x67; xaa;
   x00; x00; x00; x01; x68; xbb;
   x00; x00; x00; x01; x41; x01; x02; x03; x04; x05; x06; x07; x08; x09; x0a].

(** The parameter sets, then an IDR slice (type 5) at offset 12. *)
Definition video_idr : list byte :=
  [x00; x00; x00; x01; x67; xaa; x00; x00; x00; x01; x68; xbb;
   x00; x00; x00; x01; x65; x01; x02; x03; x04; x05; x06; x07; x08; x09; x0a].

(** The parameter sets and nothing after them. *)
Definition video_params_only : list byte :=
  [x00; x00; x00; x01; x67; x00; x00; x00; x01; x68;
   x01; x02; x03; x04; x05; x06; x07; x08; x09].

(** Two groups of parameter sets, each followed by an IDR slice: at offsets
    12 and 32. *)
Definition video_two_runs : list byte :=
  [x00; x00; x00; x01; x67; xaa; x00; x00; x00; x01; x68; xbb;
   x00; x00; x00; x01; x65; x01; x02; x03;
   x00; x00; x00; x01; x67; xaa; x00; x00; x00; x01; x68; xbb;
   x00; x00; x00; x01; x65; x01; x02; x03; x04; x05; x06; x07; x08; x09; x0a].

(** A stand-in for the library: the digest is the first 32 bytes, and a
    signature verifies when it is [sig_ab]. *)
Definition sample_env : Env := {|
  streebog256 := take 32;
  gost_verify := fun _ _ signature => Some (bool_decide (signature = sig_ab));
  splitext_base := fun path => path;
|}.

Definition sample_verifier : GOSTVideoSteganographer :=
  {| private_key := None; public_key := Some [x01]; sign_obj := true |}.

(** ** The rest of the class, and its callers in [sign.py] and [verify.py] *)

(** More of the selector's vocabulary.  A unit of type [t] that the scan
    has met before it stands at [i]. *)
Definition scanned_before (data : list byte) (t i : Z) : Prop :=
  exists a, a < i /\ a + 8 < len data /\ nal data a t.

(** The loop of the selector returns [v] at the unit at [p]: a qualifying
    slice, for which it returns [p], or a unit of type 6 with a start code
    [v] after it. *)
Definition selector_event (data : list byte) (p v : Z) : Prop :=
  (qualifying_slice data p /\ v = p) \/ sei_with_follower data p v.

(** [L] is the last parameter-set unit that the scan of
    [_find_position_after_sps_pps] meets. *)
Definition last_scanned_param (data : list byte) (L : Z) : Prop :=
  param_set data L /\ L + 8 < len data
  /\ forall p, param_set data p -> p + 8 < len data -> p <= L.

(** What the class takes from [gostcrypto] to sign, and [bytes.fromhex]:
    whether [gostsignature.new] returns an object or raises, the
    [public_key_generate] and [sign] methods of the object, and the
    decoding of a hex string. *)
Class SignEnv : Type := {
  gost_new : bool;
  gost_public_key_generate : list byte -> result (list byte);
  gost_sign : list byte -> list byte -> result (list byte);
  bytes_fromhex : string -> result (list byte);
}.

Definition set_sign_obj (self : GOSTVideoSteganographer) (o : bool)
  : GOSTVideoSteganographer :=
  {| private_key := private_key self; public_key := public_key self; sign_obj := o |}.

Definition set_key_pair (self : GOSTVideoSteganographer)
    (private public : option (list byte)) : GOSTVideoSteganographer :=
  {| private_key := private; public_key := public; sign_obj := sign_obj self |}.

(** [try: self.sign_obj = gostsignature.new(...) except: self.sign_obj = None] *)
Definition _initialize_signer `{SignEnv} (self : GOSTVideoSteganographer)
  : GOSTVideoSteganographer :=
  set_sign_obj self gost_new.

Definition __init__ `{SignEnv} : GOSTVideoSteganographer :=
  _initialize_signer {| private_key := None; public_key := None; sign_obj := false |}.

(** [generate_keys]; [token] is what [secrets.token_bytes(32)] returns. *)
Definition generate_keys `{SignEnv} (self : GOSTVideoSteganographer)
    (token : list byte)
  : result (GOSTVideoSteganographer * (list byte * list byte)) :=
  let self := if sign_obj self then self else _initialize_signer self in
  if negb (sign_obj self) then Raise ValueError
  else
    do public <- gost_public_key_generate token;
    Ok (set_key_pair self (Some token) (Some public), (token, public)).

Definition set_public_key `{SignEnv} (self : GOSTVideoSteganographer)
    (public : list byte) : GOSTVideoSteganographer :=
  let self := set_key_pair self (private_key self) (Some public) in
  if sign_obj self then self else _initialize_signer self.

(** Returns the object and the boolean. *)
Definition load_public_key_from_file `{SignEnv} (self : GOSTVideoSteganographer)
    (fs : files) (public_key_path : string)
  : result (GOSTVideoSteganographer * bool) :=
  try_except
    (do content <- read_file fs public_key_path;
     let self := set_key_pair self (private_key self) (Some content) in
     let self := if sign_obj self then self else _initialize_signer self in
     Ok (self, true))
    (self, false).

(** Returns [(signature, video_hash)]. *)
Definition sign_video `{Env} `{SignEnv} (self : GOSTVideoSteganographer)
    (fs : files) (file_path : string) : result (list byte * list byte) :=
  match sign_obj self, private_key self with
  | true, Some private =>
      do video_hash <- hash_video_file fs file_path;
      do signature <- gost_sign private video_hash;
      Ok (signature, video_hash)
  | _, _ => Raise ValueError
  end.

(** Returns the file system and the output path, or [None]. *)
Definition embed_signature_as_watermark `{Env} (fs : files)
    (input_video_path : string) (signature : list byte)
    (output_video_path : option string) : result (files * option string) :=
  let output_video_path :=
    match output_video_path with
    | Some path => path
    | None => splitext_base input_video_path +:+ "_watermarked.h264"
    end in
  try_except
    (do original_data <- read_file fs input_video_path;
     do watermarked_data <- _embed_in_sei_messages original_data signature;
     Ok (<[output_video_path := watermarked_data]> fs, Some output_video_path))
    (fs, None).

(** [verify.py].  A [VideoVerifier] is its [signer] attribute. *)
Module VideoVerifier.

(** Returns the object and the boolean. *)
Definition load_public_key (signer : GOSTVideoSteganographer) (fs : files)
    (public_key_path : string) : result (GOSTVideoSteganographer * bool) :=
  try_except
    (do content <- read_file fs public_key_path;
     Ok (set_key_pair signer (private_key signer) (Some content), true))
    (signer, false).

(** [public_key_path] is [None] or a path; the empty path counts as none. *)
Definition __init__ `{SignEnv} (fs : files) (public_key_path : option string)
  : result GOSTVideoSteganographer :=
  let signer := __init__ in
  match public_key_path with
  | Some path =>
      if negb (String.eqb path "") && bool_decide (is_Some (fs !! path)) then
        do '(signer, _) <- load_public_key signer fs path; Ok signer
      else Ok signer
  | None => Ok signer
  end.

(** Returns the boolean. *)
Definition verify_video `{Env} (signer : GOSTVideoSteganographer) (fs : files)
    (video_path : string) : result bool :=
  match public_key signer with
  | None => Ok false
  | Some _ =>
      try_except
        (do '(_, _, is_authentic)
           <- verify_watermarked_video_self_contained signer fs video_path;
         Ok is_authentic)
        false
  end.

End VideoVerifier.

(** [sign.py].  A [VideoSender] is its [signer] attribute. *)
Module VideoSender.







End VideoSender.

(** A parameter set of type 7 alone, followed by other bytes. *)
Definition video_sps_only : list byte :=
  [x00; x00; x00; x01; x67; xaa; x01; x02; x03; x04; x05; x06; x07; x08; x09; x0a].

(** A stand-in for the signing side of the library: every signature is
    [sig_ab], the public key is the private key, no hex string decodes. *)
Definition sample_sign_env : SignEnv := {|
  gost_new := true;
  gost_public_key_generate := fun private => Ok private;
  gost_sign := fun _ _ => Ok sig_ab;
  bytes_fromhex := fun _ => Raise ValueError;
|}.


(** The files of a sender: the two keys and a stream. *)
Definition sample_files : files :=
  {[ "private_key.bin"%string := [x02];
     "public_key.bin"%string := [x01];
     "video.h264"%string := video_idr ]}.

(** A signed stream, beside an older file at the path the verification
    restores to. *)
Definition sample_files_with_old_restored : files :=
  {[ "video.h264"%string := video_signed;
     "video.h264_restored.h264"%string := [x00; x01; x02] ]}.

(** * Properties *)

(** ** Bytes and indexing *)

Lemma byte_val_range b : 0 <= byte_val b <= 255.
Proof.
  unfold byte_val. pose proof (Strings.Byte.to_N_bounded b). lia.
Qed.

Lemma byte_val_inj b c : byte_val b = byte_val c -> b = c.
Proof.
  unfold byte_val. intros H. apply N2Z.inj in H.
  pose proof (Strings.Byte.of_to_N b) as Hb.
  pose proof (Strings.Byte.of_to_N c) as Hc.
  rewrite H in Hb. congruence.
Qed.

Lemma byte_val_eqb b c : (byte_val b =? byte_val c) = bool_decide (b = c).
Proof.
  destruct (decide (b = c)) as [->|Hne].
  - rewrite Z.eqb_refl, bool_decide_eq_true_2; done.
  - rewrite bool_decide_eq_false_2 by done.
    apply Z.eqb_neq. intros H. by apply Hne, byte_val_inj.
Qed.

Lemma byte_of_int_val b : byte_of_int (byte_val b) = Ok b.
Proof.
  unfold byte_of_int. pose proof (byte_val_range b).
  destruct (Z.ltb_spec (byte_val b) 0); [lia|].
  unfold byte_val. rewrite N2Z.id, Strings.Byte.of_to_N. done.
Qed.

Lemma byte_of_int_ok v :
  0 <= v <= 255 -> exists b, byte_of_int v = Ok b /\ byte_val b = v.
Proof.
  intros Hv. unfold byte_of_int.
  destruct (Z.ltb_spec v 0); [lia|].
  destruct (Strings.Byte.of_N (Z.to_N v)) as [b|] eqn:E.
  - exists b. split; [done|]. apply Strings.Byte.to_of_N in E.
    unfold byte_val. rewrite E. lia.
  - apply Strings.Byte.of_N_None_iff in E. lia.
Qed.

Lemma len_app a b : len (a ++ b) = len a + len b.
Proof. unfold len. rewrite length_app. lia. Qed.

Lemma len_nonneg a : 0 <= len a.
Proof. unfold len. lia. Qed.

Lemma getitem_lookup data i b :
  0 <= i -> data !! Z.to_nat i = Some b -> getitem data i = Ok (byte_val b).
Proof.
  intros Hi Hb. unfold getitem.
  apply lookup_lt_Some in Hb as Hlt.
  destruct (Z.ltb_spec i 0); [lia|].
  destruct (Z.ltb_spec i 0); [lia|].
  destruct (Z.leb_spec (len data) i); [unfold len in *; lia|].
  simpl. by rewrite Hb.
Qed.

Lemma getitem_in_range data i :
  0 <= i < len data ->
  exists b, data !! Z.to_nat i = Some b /\ getitem data i = Ok (byte_val b).
Proof.
  intros Hi.
  destruct (lookup_lt_is_Some_2 data (Z.to_nat i)) as [b Hb].
  { unfold len in Hi. lia. }
  exists b. split; [done|]. apply getitem_lookup; [lia|done].
Qed.

(** ** Slices *)

Lemma slice_to_nat data (n : nat) : slice_to data (Z.of_nat n) = take n data.
Proof.
  unfold slice_to, clamp.
  destruct (Z.ltb_spec (Z.of_nat n) 0); [lia|].
  destruct (Z.min_spec (len data) (Z.of_nat n)) as [[Hlt ->]|[Hle ->]].
  - unfold len in *. rewrite Nat2Z.id.
    rewrite !take_ge; [done|lia..].
  - by rewrite Nat2Z.id.
Qed.

Lemma slice_from_nat data (n : nat) : slice_from data (Z.of_nat n) = drop n data.
Proof.
  unfold slice_from, clamp.
  destruct (Z.ltb_spec (Z.of_nat n) 0); [lia|].
  destruct (Z.min_spec (len data) (Z.of_nat n)) as [[Hlt ->]|[Hle ->]].
  - unfold len in *. rewrite Nat2Z.id.
    rewrite !drop_ge; [done|lia..].
  - by rewrite Nat2Z.id.
Qed.

Lemma slice_to_pos data i : 0 <= i -> slice_to data i = take (Z.to_nat i) data.
Proof. intros Hi. rewrite <- (Z2Nat.id i) at 1 by done. apply slice_to_nat. Qed.

Lemma slice_from_pos data i : 0 <= i -> slice_from data i = drop (Z.to_nat i) data.
Proof. intros Hi. rewrite <- (Z2Nat.id i) at 1 by done. apply slice_from_nat. Qed.

Lemma slice_pos data lo hi :
  0 <= lo <= hi -> hi <= len data ->
  slice data lo hi = take (Z.to_nat (hi - lo)) (drop (Z.to_nat lo) data).
Proof.
  intros Hlo Hhi. unfold slice, clamp.
  destruct (Z.ltb_spec lo 0); [lia|].
  destruct (Z.ltb_spec hi 0); [lia|].
  rewrite !Z.min_r by lia. f_equal. lia.
Qed.

(** ** Bytes at an offset *)

Lemma at_pos_nil data i : 0 <= i -> at_pos data i [].
Proof. intros Hi. split; [done|]. by rewrite take_0. Qed.

Lemma at_pos_cons data i b bs :
  at_pos data i (b :: bs)
  <-> 0 <= i /\ data !! Z.to_nat i = Some b /\ at_pos data (i + 1) bs.
Proof.
  unfold at_pos. split.
  - intros [Hi H]. split; [done|].
    destruct (data !! Z.to_nat i) as [c|] eqn:E.
    + rewrite (drop_S _ _ _ E) in H. simpl in H. injection H as Hc Hbs.
      subst c. split; [done|]. split; [lia|].
      replace (Z.to_nat (i + 1)) with (S (Z.to_nat i)) by lia. exact Hbs.
    + apply lookup_ge_None in E. rewrite drop_ge in H by done.
      by rewrite take_nil in H.
  - intros (Hi & E & _ & H). split; [done|].
    rewrite (drop_S _ _ _ E). simpl. f_equal.
    replace (Z.to_nat (i + 1)) with (S (Z.to_nat i)) in H by lia. done.
Qed.

Lemma at_pos_app data i a b :
  at_pos data i (a ++ b) <-> at_pos data i a /\ at_pos data (i + len a) b.
Proof.
  revert i. induction a as [|x a IH]; intros i; simpl.
  - unfold len; simpl. rewrite Z.add_0_r. split.
    + intros H. split; [|done]. apply at_pos_nil, H.
    + by intros [_ H].
  - rewrite !at_pos_cons, IH.
    replace (i + len (x :: a)) with (i + 1 + len a)
      by (unfold len; simpl; lia).
    tauto.
Qed.

Lemma at_pos_bound data i bs :
  at_pos data i bs -> bs <> [] -> 0 <= i /\ i + len bs <= len data.
Proof.
  intros [Hi H] Hne. split; [done|].
  apply (f_equal length) in H. rewrite length_take, length_drop in H.
  assert (0 < length bs)%nat by (destruct bs; [done|simpl; lia]).
  unfold len. lia.
Qed.

Lemma at_pos_lookup data i bs k b :
  at_pos data i bs -> bs !! k = Some b -> data !! (Z.to_nat i + k)%nat = Some b.
Proof.
  intros [Hi H] Hk. rewrite <- H in Hk.
  apply lookup_take_Some in Hk as [Hk _]. by rewrite lookup_drop in Hk.
Qed.

Lemma at_pos_middle pre bs post : at_pos (pre ++ bs ++ post) (len pre) bs.
Proof.
  split; [apply len_nonneg|]. unfold len. rewrite Nat2Z.id.
  rewrite drop_app_length. by rewrite take_app_length.
Qed.

Lemma at_pos_inj data i a b :
  at_pos data i a -> at_pos data i b -> length a = length b -> a = b.
Proof. intros [_ Ha] [_ Hb] Hl. rewrite <- Ha, <- Hb, Hl. done. Qed.

(** ** Start codes *)

Lemma sc_at_lookups data i b0 b1 b2 b3 :
  0 <= i ->
  data !! Z.to_nat i = Some b0 -> data !! Z.to_nat (i + 1) = Some b1 ->
  data !! Z.to_nat (i + 2) = Some b2 -> data !! Z.to_nat (i + 3) = Some b3 ->
  sc_at data i <-> b0 = x00 /\ b1 = x00 /\ b2 = x00 /\ b3 = x01.
Proof.
  intros Hi H0 H1 H2 H3. unfold sc_at, start_code.
  rewrite !at_pos_cons.
  replace (i + 1 + 1) with (i + 2) by lia.
  replace (i + 2 + 1) with (i + 3) by lia.
  rewrite H0, H1, H2, H3. split.
  - intros (_ & ? & _ & ? & _ & ? & _ & ? & _). by simplify_eq.
  - intros (-> & -> & -> & ->).
    repeat (split; [lia || done|]). apply at_pos_nil. lia.
Qed.

Lemma is_start_code_spec data i :
  0 <= i -> i + 4 <= len data ->
  is_start_code data i = Ok (bool_decide (sc_at data i)).
Proof.
  intros Hi Hlen.
  destruct (getitem_in_range data i) as (b0 & L0 & G0); [lia|].
  destruct (getitem_in_range data (i + 1)) as (b1 & L1 & G1); [lia|].
  destruct (getitem_in_range data (i + 2)) as (b2 & L2 & G2); [lia|].
  destruct (getitem_in_range data (i + 3)) as (b3 & L3 & G3); [lia|].
  pose proof (sc_at_lookups data i b0 b1 b2 b3 Hi L0 L1 L2 L3) as Hsc.
  unfold is_start_code, and_then. rewrite G0, G1, G2, G3. simpl.
  change 0 with (byte_val x00). change 1 with (byte_val x01).
  rewrite !byte_val_eqb.
  repeat case_bool_decide; simpl; try done; tauto.
Qed.

Lemma sc_at_bound data i : sc_at data i -> 0 <= i /\ i + 4 <= len data.
Proof. intros H. by apply at_pos_bound in H. Qed.

(** Two start codes do not overlap. *)
Lemma sc_at_apart data i j : sc_at data i -> sc_at data j -> i < j -> i + 4 <= j.
Proof.
  intros Hi Hj Hlt.
  destruct (Z.le_gt_cases (i + 4) j) as [|Hgt]; [done|exfalso].
  pose proof (sc_at_bound _ _ Hi) as [Hi0 _].
  pose proof (at_pos_lookup data i start_code 3 x01 Hi eq_refl) as E3.
  assert (j = i + 1 \/ j = i + 2 \/ j = i + 3) as [->|[->| ->]] by lia.
  - pose proof (at_pos_lookup data _ start_code 2 x00 Hj eq_refl) as E.
    replace (Z.to_nat (i + 1) + 2)%nat with (Z.to_nat i + 3)%nat in E by lia.
    congruence.
  - pose proof (at_pos_lookup data _ start_code 1 x00 Hj eq_refl) as E.
    replace (Z.to_nat (i + 2) + 1)%nat with (Z.to_nat i + 3)%nat in E by lia.
    congruence.
  - pose proof (at_pos_lookup data _ start_code 0 x00 Hj eq_refl) as E.
    replace (Z.to_nat (i + 3) + 0)%nat with (Z.to_nat i + 3)%nat in E by lia.
    congruence.
Qed.

Lemma nal_sc data i t : nal data i t -> sc_at data i.
Proof. intros (h & H & _). by apply at_pos_app in H as [H _]. Qed.

Lemma nal_bound data i t : nal data i t -> 0 <= i /\ i + 5 <= len data.
Proof. intros (h & H & _). by apply at_pos_bound in H. Qed.

Lemma nal_header data i t h :
  nal data i t -> data !! Z.to_nat (i + 4) = Some h -> Z.land (byte_val h) 0x1F = t.
Proof.
  intros (h' & H & Ht) E.
  pose proof (at_pos_bound _ _ _ H ltac:(done)) as [Hi _].
  pose proof (at_pos_lookup data i _ 4 h' H eq_refl) as E'.
  replace (Z.to_nat i + 4)%nat with (Z.to_nat (i + 4)) in E' by lia.
  congruence.
Qed.

Lemma nal_type_unique data i t t' : nal data i t -> nal data i t' -> t = t'.
Proof.
  intros H H'. destruct H as (h & Hh & Ht).
  pose proof (at_pos_bound _ _ _ Hh ltac:(done)) as [Hi _].
  pose proof (at_pos_lookup data i _ 4 h Hh eq_refl) as E.
  replace (Z.to_nat i + 4)%nat with (Z.to_nat (i + 4)) in E by lia.
  rewrite <- Ht. by eapply nal_header.
Qed.

Lemma nal_intro data i h :
  sc_at data i -> data !! Z.to_nat (i + 4) = Some h ->
  nal data i (Z.land (byte_val h) 0x1F).
Proof.
  intros Hsc E. exists h. split; [|done].
  pose proof (sc_at_bound _ _ Hsc) as [Hi _].
  apply at_pos_app. split; [done|].
  apply at_pos_cons. split; [unfold len; simpl; lia|]. split; [done|].
  apply at_pos_nil. unfold len; simpl; lia.
Qed.

(** ** [_find_next_start_code] finds the next start code *)

Lemma find_next_loop_spec fuel data i :
  0 <= i -> len data - 4 - i < Z.of_nat fuel -> (0 < fuel)%nat ->
  exists r, find_next_loop fuel data i = Ok r /\ next_sc data i r.
Proof.
  revert i. induction fuel as [|fuel IH]; intros i Hi Hfuel Hpos; [lia|].
  simpl. destruct (Z.ltb_spec i (len data - 4)) as [Hlt|Hge].
  - rewrite is_start_code_spec by lia. simpl.
    case_bool_decide as Hsc.
    + exists i. split; [done|]. right. split; [lia|]. split; [done|]. lia.
    + destruct (IH (i + 1)) as (r & Hr & Hn); [lia..|].
      exists r. split; [done|].
      destruct Hn as [[-> Hn]|(Hrange & Hscr & Hn)].
      * left. split; [done|]. intros q Hq.
        destruct (decide (q = i)) as [->|]; [done|]. apply Hn. lia.
      * right. split; [lia|]. split; [done|]. intros q Hq.
        destruct (decide (q = i)) as [->|]; [done|]. apply Hn. lia.
  - exists (-1). split; [done|]. left. split; [done|]. lia.
Qed.

Lemma find_next_spec data s :
  0 <= s -> exists r, _find_next_start_code data s = Ok r /\ next_sc data s r.
Proof. intros Hs. apply find_next_loop_spec; lia. Qed.

Lemma next_sc_unique data s r r' : next_sc data s r -> next_sc data s r' -> r = r'.
Proof.
  intros [[-> H]|(Hr & Hsc & H)] [[-> H']|(Hr' & Hsc' & H')]; try done.
  - exfalso. by apply (H r').
  - exfalso. by apply (H' r).
  - destruct (Z.lt_trichotomy r r') as [Hlt|[->|Hgt]]; [|done|].
    + exfalso. apply (H' r); [lia|done].
    + exfalso. apply (H r'); [lia|done].
Qed.

Lemma find_next_found data s r :
  0 <= s -> next_sc data s r -> _find_next_start_code data s = Ok r.
Proof.
  intros Hs Hn. destruct (find_next_spec data s Hs) as (r' & Hr' & Hn').
  by rewrite (next_sc_unique _ _ _ _ Hn Hn').
Qed.

(** The first start code strictly after the one at [i], when some start
    code [p] lies further on. *)
Lemma next_sc_before data i p r :
  sc_at data i -> sc_at data p -> i < p -> p < len data - 4 ->
  next_sc data (i + 4) r ->
  i + 4 <= r <= p /\ sc_at data r /\ forall q, i < q < r -> ~ sc_at data q.
Proof.
  intros Hi Hp Hlt Hpl Hn.
  pose proof (sc_at_apart _ _ _ Hi Hp Hlt) as Hap.
  destruct Hn as [[-> Hn]|(Hr & Hsc & Hn)].
  - exfalso. apply (Hn p); [lia|done].
  - assert (r <= p).
    { destruct (Z.le_gt_cases r p); [done|]. exfalso. apply (Hn p); [lia|done]. }
    split; [lia|]. split; [done|]. intros q Hq Hscq.
    pose proof (sc_at_apart _ _ _ Hi Hscq ltac:(lia)).
    apply (Hn q); [lia|done].
Qed.

(** ** The chunked length field *)

Lemma size_loop_spec fuel u v :
  0 <= v -> v < 255 * Z.of_nat fuel ->
  size_loop fuel u v = Ok (u ++ replicate (Z.to_nat (v / 255)) xff, v mod 255).
Proof.
  revert u v. induction fuel as [|fuel IH]; intros u v Hv Hfuel; [lia|].
  simpl. destruct (Z.leb_spec 255 v) as [Hge|Hlt].
  - rewrite IH by lia.
    replace (Z.to_nat (v / 255)) with (S (Z.to_nat ((v - 255) / 255))) by lia.
    replace ((v - 255) mod 255) with (v mod 255) by lia.
    simpl. by rewrite <- app_assoc.
  - replace (v / 255) with 0 by lia. replace (v mod 255) with v by lia.
    simpl. by rewrite app_nil_r.
Qed.

Lemma append_chunked_spec u v :
  0 <= v ->
  exists b, byte_val b = v mod 255
    /\ append_chunked u v = Ok (u ++ replicate (Z.to_nat (v / 255)) xff ++ [b]).
Proof.
  intros Hv. unfold append_chunked.
  rewrite size_loop_spec by lia. simpl.
  destruct (byte_of_int_ok (v mod 255)) as (b & Hb & Hval); [lia|].
  exists b. split; [done|]. rewrite Hb. simpl. by rewrite <- app_assoc.
Qed.

Lemma ff_loop_run fuel data acc pos k :
  at_pos data pos (replicate k xff) -> ff_stop data (pos + Z.of_nat k) ->
  (k < fuel)%nat ->
  ff_loop fuel data acc pos = Ok (acc + 255 * Z.of_nat k, pos + Z.of_nat k).
Proof.
  revert fuel acc pos. induction k as [|k IH]; intros fuel acc pos Hrun Hstop Hfuel;
    (destruct fuel as [|fuel]; [lia|]); simpl; unfold and_then; simpl.
  - rewrite !Z.add_0_r in *. destruct Hstop as [Hend|(b & Hb & Hne)].
    + destruct (Z.ltb_spec pos (len data)); [lia|]. done.
    + destruct Hrun as [Hpos _].
      apply lookup_lt_Some in Hb as Hlt.
      destruct (Z.ltb_spec pos (len data)); [|unfold len in *; lia].
      rewrite (getitem_lookup _ _ _ Hpos Hb). simpl.
      change 255 with (byte_val xff). rewrite byte_val_eqb.
      by rewrite bool_decide_eq_false_2.
  - apply at_pos_cons in Hrun as (Hpos & Hb & Hrun).
    apply lookup_lt_Some in Hb as Hlt.
    destruct (Z.ltb_spec pos (len data)); [|unfold len in *; lia].
    rewrite (getitem_lookup _ _ _ Hpos Hb). simpl.
    rewrite (IH fuel (acc + 255) (pos + 1)); [|done| |lia].
    + f_equal. f_equal; lia.
    + by replace (pos + 1 + Z.of_nat k) with (pos + Z.of_nat (S k)) by lia.
Qed.

Lemma ff_run_exists data pos :
  0 <= pos -> exists k, at_pos data pos (replicate k xff) /\ ff_stop data (pos + Z.of_nat k).
Proof.
  intros Hpos. remember (Z.to_nat (len data - pos)) as n eqn:Hn.
  revert pos Hpos Hn. induction n as [|n IH]; intros pos Hpos Hn.
  - exists 0%nat. split; [by apply at_pos_nil|]. left. lia.
  - destruct (getitem_in_range data pos) as (b & Hb & _); [lia|].
    destruct (decide (b = xff)) as [->|Hne].
    + destruct (IH (pos + 1)) as (k & Hrun & Hstop); [lia..|].
      exists (S k). split.
      * simpl. apply at_pos_cons. done.
      * by replace (pos + Z.of_nat (S k)) with (pos + 1 + Z.of_nat k) by lia.
    + exists 0%nat. split; [by apply at_pos_nil|]. right.
      rewrite Z.add_0_r. eauto.
Qed.

Lemma at_pos_run_bound data pos k :
  at_pos data pos (replicate k xff) -> 0 <= pos -> Z.of_nat k <= Z.max 0 (len data - pos).
Proof.
  intros H Hpos. destruct k as [|k]; [lia|].
  apply at_pos_bound in H as [_ H]; [|done].
  unfold len in *. rewrite length_replicate in H. lia.
Qed.

Lemma read_chunked_spec data pos :
  0 <= pos ->
  exists k, at_pos data pos (replicate k xff)
    /\ ((len data <= pos + Z.of_nat k /\ read_chunked data pos = Ok None)
        \/ (exists b, data !! Z.to_nat (pos + Z.of_nat k) = Some b /\ b <> xff
             /\ read_chunked data pos
                = Ok (Some (255 * Z.of_nat k + byte_val b, pos + Z.of_nat k + 1)))).
Proof.
  intros Hpos. destruct (ff_run_exists data pos Hpos) as (k & Hrun & Hstop).
  exists k. split; [done|]. unfold read_chunked.
  pose proof (at_pos_run_bound _ _ _ Hrun Hpos) as Hk.
  rewrite (ff_loop_run _ _ _ _ k Hrun Hstop) by lia. simpl.
  destruct Hstop as [Hend|(b & Hb & Hne)].
  - left. split; [done|].
    destruct (Z.ltb_spec (pos + Z.of_nat k) (len data)); [lia|done].
  - right. exists b. split; [done|]. split; [done|].
    apply lookup_lt_Some in Hb as Hlt.
    destruct (Z.ltb_spec (pos + Z.of_nat k) (len data)); [|unfold len in *; lia].
    rewrite (getitem_lookup _ _ b) by (done || lia). simpl.
    do 3 f_equal.
Qed.

Lemma at_pos_run_unique data pos k k' :
  at_pos data pos (replicate k xff) -> ff_stop data (pos + Z.of_nat k) ->
  at_pos data pos (replicate k' xff) -> ff_stop data (pos + Z.of_nat k') ->
  k = k'.
Proof.
  assert (forall a b, at_pos data pos (replicate b xff) ->
            ff_stop data (pos + Z.of_nat a) -> (a < b)%nat -> False) as Hlt.
  { intros a b Hb Ha Hab.
    pose proof (proj1 Hb) as Hpos.
    assert (replicate b xff !! a = Some xff) as Hx.
    { by apply lookup_replicate_2. }
    pose proof (at_pos_lookup _ _ _ _ _ Hb Hx) as E.
    replace (Z.to_nat pos + a)%nat with (Z.to_nat (pos + Z.of_nat a)) in E by lia.
    destruct Ha as [Hend|(c & Hc & Hne)].
    - apply lookup_lt_Some in E. unfold len in *. lia.
    - congruence. }
  intros Hk Hs Hk' Hs'.
  destruct (Nat.lt_trichotomy k k') as [H|[H|H]]; [exfalso; eauto|done|exfalso; eauto].
Qed.

Lemma read_chunked_run data pos k b :
  at_pos data pos (replicate k xff ++ [b]) -> b <> xff ->
  read_chunked data pos = Ok (Some (255 * Z.of_nat k + byte_val b, pos + Z.of_nat k + 1)).
Proof.
  intros H Hne. apply at_pos_app in H as [Hrun Hb].
  pose proof (proj1 Hrun) as Hpos.
  unfold len in Hb. rewrite length_replicate in Hb.
  apply at_pos_cons in Hb as (_ & Hb & _).
  assert (ff_stop data (pos + Z.of_nat k)) as Hstop by (right; eauto).
  destruct (read_chunked_spec data pos Hpos) as (k' & Hrun' & Hcase).
  destruct Hcase as [[Hend _]|(b' & Hb' & Hne' & ->)].
  - assert (ff_stop data (pos + Z.of_nat k')) as Hstop' by (by left).
    pose proof (at_pos_run_unique _ _ _ _ Hrun Hstop Hrun' Hstop') as <-.
    apply lookup_lt_Some in Hb. unfold len in *. lia.
  - assert (ff_stop data (pos + Z.of_nat k')) as Hstop' by (right; eauto).
    pose proof (at_pos_run_unique _ _ _ _ Hrun Hstop Hrun' Hstop') as <-.
    congruence.
Qed.

(** C2. For every non-negative [v], the writer's chunked field for [v] is
    [v / 255] bytes [0xFF] followed by one terminal byte in [0, 254], it is
    [ceil((v + 1) / 255)] bytes long, and the reader decodes it back to [v]
    wherever it stands in a buffer, stopping right after the terminal
    byte. *)
Theorem C2_chunked_length_roundtrip (v : Z) (Hv : 0 <= v) :
  exists (k : nat) (b : byte),
    let field := replicate k xff ++ [b] in
    (forall u, append_chunked u v = Ok (u ++ field))
    /\ 0 <= byte_val b <= 254
    /\ len field = ceil_div (v + 1) 255
    /\ forall pre post,
         read_chunked (pre ++ field ++ post) (len pre)
         = Ok (Some (v, len pre + len field)).
Proof.
  destruct (append_chunked_spec [] v Hv) as (b & Hb & _).
  exists (Z.to_nat (v / 255)), b. simpl.
  assert (b <> xff) as Hne.
  { intros ->. change (byte_val xff) with 255 in Hb. lia. }
  assert (len (replicate (Z.to_nat (v / 255)) xff ++ [b]) = v / 255 + 1) as Hlen.
  { unfold len. rewrite length_app, length_replicate. simpl. lia. }
  split; [|split; [|split]].
  - intros u. destruct (append_chunked_spec u v Hv) as (b' & Hb' & ->).
    rewrite <- Hb in Hb'. by apply byte_val_inj in Hb' as ->.
  - lia.
  - rewrite Hlen. unfold ceil_div. lia.
  - intros pre post.
    rewrite (read_chunked_run _ _ (Z.to_nat (v / 255)) b);
      [|apply at_pos_middle|done].
    rewrite Hlen, Hb. do 3 f_equal; lia.
Qed.

Lemma C2_chunked_length_roundtrip_witness :
  exists (k : nat) (b : byte),
    let field := replicate k xff ++ [b] in
    (forall u, append_chunked u 510 = Ok (u ++ field))
    /\ 0 <= byte_val b <= 254
    /\ len field = ceil_div (510 + 1) 255
    /\ forall pre post,
         read_chunked (pre ++ field ++ post) (len pre)
         = Ok (Some (510, len pre + len field)).
Proof. apply (C2_chunked_length_roundtrip 510). lia. Defined.

(** ** [_parse_sei_and_get_length] *)

Lemma count_loop_spec fuel n v :
  0 <= v -> v < 255 * Z.of_nat fuel -> count_loop fuel n v = Ok (n + v / 255).
Proof.
  revert n v. induction fuel as [|fuel IH]; intros n v Hv Hfuel; [lia|].
  simpl. destruct (Z.leb_spec 255 v).
  - rewrite IH by lia. f_equal. lia.
  - f_equal. lia.
Qed.

(** The reader's count of the bytes of a field is the number of bytes the
    writer emits for it. *)
Lemma field_bytes_spec v : 0 <= v -> field_bytes v = Ok (1 + v / 255).
Proof. intros Hv. unfold field_bytes. apply count_loop_spec; lia. Qed.

Lemma unit_at_bound data p sig :
  unit_at data p sig -> 0 <= p + 5 /\ p + 88 <= len data.
Proof.
  intros [H Hl]. apply at_pos_bound in H as [H0 H]; [|done]. split; [done|].
  unfold len in *. rewrite !length_app in H. simpl in H. lia.
Qed.

Lemma unit_at_unique data p sig sig' :
  unit_at data p sig -> unit_at data p sig' -> sig = sig'.
Proof.
  intros [H Hl] [H' Hl'].
  pose proof (at_pos_inj _ _ _ _ H H') as E.
  rewrite !length_app, Hl, Hl' in E. specialize (E eq_refl).
  by simplify_list_eq.
Qed.

Lemma parse_unit data p sig :
  0 <= p -> unit_at data p sig ->
  _parse_sei_and_get_length data p = Ok (Some sig, 89).
Proof.
  intros Hp Hu. pose proof (unit_at_bound _ _ _ Hu) as [_ Hlen].
  destruct Hu as [Hu Hsig].
  change ([x05; x51] ++ uuid ++ sig) with ([x05] ++ [x51] ++ (uuid ++ sig)) in Hu.
  apply at_pos_app in Hu as [H5 Hu]. apply at_pos_app in Hu as [H51 Hu].
  change (len [x05]) with 1 in *. change (len [x51]) with 1 in *.
  assert (read_chunked data (p + 4 + 1) = Ok (Some (5, p + 6))) as R1.
  { rewrite (read_chunked_run data (p + 4 + 1) 0 x05);
      [|by replace (p + 4 + 1) with (p + 5) by lia|done].
    change (byte_val x05) with 5. do 3 f_equal; lia. }
  assert (read_chunked data (p + 6) = Ok (Some (81, p + 7))) as R2.
  { rewrite (read_chunked_run data (p + 6) 0 x51);
      [|by replace (p + 6) with (p + 5 + 1) by lia|done].
    change (byte_val x51) with 81. do 3 f_equal; lia. }
  unfold _parse_sei_and_get_length.
  destruct (Z.leb_spec (len data) (p + 4)); [lia|].
  destruct (getitem_in_range data (p + 4)) as (h & _ & ->); [lia|].
  cbn [bind]. rewrite R1. cbn [bind]. rewrite R2. cbn [bind].
  rewrite Z.eqb_refl.
  destruct (Z.leb_spec (p + 7 + 81) (len data)); [|lia]. cbn [andb].
  destruct Hu as [Hpos7 Hu].
  rewrite slice_pos by lia.
  replace (Z.to_nat (p + 7 + 81 - (p + 7))) with (length (uuid ++ sig))
    by (rewrite length_app, Hsig; simpl; lia).
  replace (p + 7) with (p + 5 + 1 + 1) by lia.
  rewrite Hu.
  change (len uuid) with (Z.of_nat (length uuid)).
  rewrite slice_to_nat, slice_from_nat, take_app_length, drop_app_length.
  rewrite bool_decide_eq_true_2 by done.
  unfold len. rewrite Hsig. done.
Qed.

Lemma parse_cases data p :
  0 <= p ->
  _parse_sei_and_get_length data p = Ok (None, 0)
  \/ exists sig, _parse_sei_and_get_length data p = Ok (Some sig, 89)
                 /\ unit_at data p sig.
Proof.
  intros Hp. unfold _parse_sei_and_get_length.
  destruct (Z.leb_spec (len data) (p + 4)); [by left|].
  destruct (getitem_in_range data (p + 4)) as (h & _ & ->); [lia|]. simpl.
  destruct (read_chunked_spec data (p + 4 + 1)) as (k & Hk & Hcase); [lia|].
  destruct Hcase as [[_ ->]|(b & Hb & Hbne & ->)]; [by left|]. simpl.
  set (pos := p + 4 + 1 + Z.of_nat k + 1).
  destruct (read_chunked_spec data pos) as (k2 & Hk2 & Hcase); [lia|].
  destruct Hcase as [[_ ->]|(b2 & Hb2 & Hb2ne & ->)]; [by left|]. simpl.
  set (size := 255 * Z.of_nat k2 + byte_val b2).
  set (pos2 := pos + Z.of_nat k2 + 1).
  pose proof (byte_val_range b) as Hbr. pose proof (byte_val_range b2) as Hb2r.
  destruct (Z.eqb_spec (255 * Z.of_nat k + byte_val b) 5) as [Htype|]; [|by left].
  destruct (Z.leb_spec (pos2 + size) (len data)) as [Hfit|]; [|by left]. simpl.
  rewrite slice_pos by lia.
  replace (pos2 + size - pos2) with size by lia.
  set (payload := take (Z.to_nat size) (drop (Z.to_nat pos2) data)).
  assert (length payload = Z.to_nat size) as Hpl.
  { unfold payload. rewrite length_take, length_drop. unfold len in *. lia. }
  change (len uuid) with (Z.of_nat (length uuid)).
  rewrite slice_to_nat, slice_from_nat.
  case_bool_decide as Htag; [|by left].
  destruct (Z.eqb_spec (len (drop (length uuid) payload)) 64) as [Hsl|]; [|by left].
  unfold len in Hsl. rewrite length_drop, Hpl in Hsl. simpl in Hsl.
  assert (size = 81) as Hsize by lia.
  assert (k = 0%nat /\ byte_val b = 5) as [-> Hb5] by lia.
  assert (k2 = 0%nat /\ byte_val b2 = 81) as [-> Hb51] by (unfold size in Hsize; lia).
  change 5 with (byte_val x05) in Hb5. apply byte_val_inj in Hb5 as ->.
  change 81 with (byte_val x51) in Hb51. apply byte_val_inj in Hb51 as ->.
  right. exists (drop (length uuid) payload).
  rewrite Htype, Hsize. split; [done|].
  split; [|by rewrite length_drop, Hpl, Hsize].
  apply at_pos_cons. split; [lia|]. split.
  { by replace (p + 5) with (p + 4 + 1 + Z.of_nat 0) by lia. }
  apply at_pos_cons. split; [lia|]. split.
  { by replace (p + 5 + 1) with (pos + Z.of_nat 0) by (unfold pos; lia). }
  split; [lia|].
  assert (uuid ++ drop (length uuid) payload = payload) as ->.
  { rewrite <- Htag at 1. apply take_drop. }
  rewrite Hpl. unfold payload, pos2, pos. do 3 f_equal. lia.
Qed.

(** ** [_extract_signature_and_remove_watermark] *)

Lemma valid_at_bound data p sig : valid_at data p sig -> 0 <= p /\ p + 88 <= len data.
Proof.
  intros [Hn Hu]. apply nal_bound in Hn as [Hp _].
  apply unit_at_bound in Hu as [_ Hu]. done.
Qed.

Lemma valid_at_unique data p sig sig' :
  valid_at data p sig -> valid_at data p sig' -> sig = sig'.
Proof. intros [_ H] [_ H']. by eapply unit_at_unique. Qed.

(** No start code lies strictly between a start code and the next one the
    scanner finds. *)
Lemma no_sc_between data i r q :
  sc_at data i -> next_sc data (i + 4) r ->
  i < q -> r = -1 \/ q < r -> q < len data - 4 -> ~ sc_at data q.
Proof.
  intros Hi Hn Hiq Hqr Hql Hq.
  pose proof (sc_at_apart _ _ _ Hi Hq Hiq).
  pose proof (sc_at_bound _ _ Hi).
  destruct Hn as [[_ Hn]|(Hr & _ & Hn)].
  - apply (Hn q); [lia|done].
  - apply (Hn q); [lia|done].
Qed.

Lemma next_sc_range data s r : next_sc data s r -> r = -1 \/ s <= r < len data - 4.
Proof. intros [[-> _]|(H & _)]; auto. Qed.

Lemma extract_loop_spec fuel data i :
  0 <= i -> len data - i < Z.of_nat fuel -> (0 < fuel)%nat ->
  (exists p sig, i <= p /\ valid_at data p sig /\ none_valid data i p
      /\ extract_loop fuel data i = Ok (removed_at data p sig))
  \/ (none_valid data i (len data) /\ extract_loop fuel data i = Ok (None, None)).
Proof.
  revert i. induction fuel as [|fuel IH]; intros i Hi Hfuel Hpos; [lia|].
  simpl. destruct (Z.ltb_spec i (len data - 20)) as [Hlt|Hge]; cycle 1.
  { right. split; [|done]. intros q s Hq Hv. apply valid_at_bound in Hv. lia. }
  rewrite is_start_code_spec by lia. cbn [bind].
  case_bool_decide as Hsc; cycle 1.
  { (* no start code at [i] *)
    assert (forall s, ~ valid_at data i s) as Hni.
    { intros s [Hn _]. by apply nal_sc in Hn. }
    destruct (IH (i + 1)) as [(p & sig & Hp & Hv & Hnone & ->)|[Hnone ->]]; [lia..| |].
    - left. exists p, sig. split; [lia|]. split; [done|]. split; [|done].
      intros q s Hq. destruct (decide (q = i)) as [->|]; [done|]. apply Hnone. lia.
    - right. split; [|done].
      intros q s Hq. destruct (decide (q = i)) as [->|]; [done|]. apply Hnone. lia. }
  destruct (getitem_in_range data (i + 4)) as (h & Hh & ->); [lia|]. cbn [bind].
  pose proof (nal_intro _ _ _ Hsc Hh) as Hnal.
  (* moving on to the next start code, when no unit is accepted at [i] *)
  assert ((forall s, ~ valid_at data i s) ->
    (exists p sig, i <= p /\ valid_at data p sig /\ none_valid data i p
      /\ (do next_start <- _find_next_start_code data (i + 4);
          if next_start =? -1 then Ok (None, None)
          else extract_loop fuel data next_start) = Ok (removed_at data p sig))
    \/ (none_valid data i (len data)
        /\ (do next_start <- _find_next_start_code data (i + 4);
            if next_start =? -1 then Ok (None, None)
            else extract_loop fuel data next_start) = Ok (None, None))) as Hnext.
  { intros Hni.
    destruct (find_next_spec data (i + 4)) as (r & -> & Hn); [lia|]. cbn [bind].
    assert (forall q s, i <= q -> r = -1 \/ q < r -> ~ valid_at data q s) as Hskip.
    { intros q s Hq Hqr Hv. destruct (decide (q = i)) as [->|]; [by eapply Hni|].
      pose proof (valid_at_bound _ _ _ Hv).
      apply (no_sc_between data i r q); [done|done|lia|done|lia|].
      destruct Hv as [Hv _]. by apply nal_sc in Hv. }
    destruct (next_sc_range _ _ _ Hn) as [->|Hr].
    - right. split; [|done]. intros q s Hq. apply Hskip; [lia|by left].
    - destruct (Z.eqb_spec r (-1)); [lia|].
      destruct (IH r) as [(p & sig & Hp & Hv & Hnone & ->)|[Hnone ->]]; [lia..| |].
      + left. exists p, sig. split; [lia|]. split; [done|]. split; [|done].
        intros q s Hq. destruct (Z.lt_ge_cases q r).
        * apply Hskip; [lia|by right].
        * apply Hnone. lia.
      + right. split; [|done].
        intros q s Hq. destruct (Z.lt_ge_cases q r).
        * apply Hskip; [lia|by right].
        * apply Hnone. lia. }
  destruct (Z.eqb_spec (Z.land (byte_val h) 31) 6) as [H6|Hn6]; cycle 1.
  { apply Hnext. intros s [Hv _]. apply Hn6. by eapply nal_type_unique. }
  destruct (parse_cases data i Hi) as [E|(sig & E & Hu)]; rewrite E; cbn [bind].
  - apply Hnext. intros s [_ Hv]. apply (parse_unit _ _ _ Hi) in Hv. congruence.
  - left. exists i, sig. split; [lia|]. rewrite H6 in Hnal.
    split; [done|]. split; [intros q s Hq; lia|].
    destruct Hu as [_ Hl]. destruct sig as [|b sig]; [done|]. simpl.
    unfold removed_at. rewrite slice_to_pos, slice_from_pos by lia. done.
Qed.

(** The extractor returns the first unit that validates, and nothing when
    no unit validates. *)
Lemma extract_spec data :
  (exists p sig, valid_at data p sig /\ none_valid data 0 p
      /\ _extract_signature_and_remove_watermark data = Ok (removed_at data p sig))
  \/ (none_valid data 0 (len data)
      /\ _extract_signature_and_remove_watermark data = Ok (None, None)).
Proof.
  unfold _extract_signature_and_remove_watermark.
  destruct (extract_loop_spec (S (length data)) data 0)
    as [(p & sig & _ & H)|H]; [unfold len; lia..| |].
  - left. by exists p, sig.
  - by right.
Qed.

Lemma extract_first data p sig :
  valid_at data p sig -> none_valid data 0 p ->
  _extract_signature_and_remove_watermark data = Ok (removed_at data p sig).
Proof.
  intros Hv Hnone. pose proof (valid_at_bound _ _ _ Hv) as [Hp Hl].
  destruct (extract_spec data) as [(p' & sig' & Hv' & Hnone' & ->)|[Hno _]].
  - pose proof (valid_at_bound _ _ _ Hv') as [Hp' _].
    destruct (Z.lt_trichotomy p p') as [Hlt|[->|Hgt]].
    + exfalso. by apply (Hnone' p sig).
    + by rewrite (valid_at_unique _ _ _ _ Hv Hv').
    + exfalso. by apply (Hnone p' sig').
  - exfalso. apply (Hno p sig); [lia|done].
Qed.

(** ** [_create_sei_payload] *)

Lemma create_sei_payload_any sig :
  exists (k : nat) (b : byte),
    Z.of_nat k = (17 + len sig) / 255 /\ byte_val b = (17 + len sig) mod 255
    /\ _create_sei_payload sig
       = Ok (start_code ++ [x06; x05] ++ (replicate k xff ++ [b])
               ++ (uuid ++ sig) ++ [x80]).
Proof.
  unfold _create_sei_payload.
  assert (len (uuid ++ sig) = 17 + len sig) as -> by by rewrite len_app.
  pose proof (len_nonneg sig) as Hs.
  destruct (append_chunked_spec (([] ++ start_code) ++ [x06] ++ [x05]) (17 + len sig))
    as (b & Hb & E); [lia|].
  exists (Z.to_nat ((17 + len sig) / 255)), b.
  split; [lia|]. split; [done|].
  change ((([] ++ start_code) ++ [x06]) ++ [x05])
    with (([] ++ start_code) ++ [x06] ++ [x05]).
  rewrite E. cbn [bind]. f_equal. by simplify_list_eq.
Qed.

Lemma create_sei_payload_64 sig :
  length sig = 64%nat -> _create_sei_payload sig = Ok (sei_unit sig).
Proof.
  intros Hl. destruct (create_sei_payload_any sig) as (k & b & Hk & Hb & ->).
  unfold len in *. rewrite Hl in *.
  assert (k = 0%nat) as -> by lia.
  change ((17 + Z.of_nat 64) `mod` 255) with (byte_val x51) in Hb.
  apply byte_val_inj in Hb as ->. done.
Qed.

Lemma sei_unit_length sig : length sig = 64%nat -> len (sei_unit sig) = 89.
Proof.
  intros Hl. unfold sei_unit, len. rewrite !length_app, Hl. done.
Qed.

(** The unit validates wherever it stands. *)
Lemma sei_unit_valid pre sig post :
  length sig = 64%nat -> valid_at (pre ++ sei_unit sig ++ post) (len pre) sig.
Proof.
  intros Hl.
  pose proof (at_pos_middle pre (sei_unit sig) post) as H.
  unfold sei_unit in H. apply at_pos_app in H as [Hhead H].
  apply at_pos_app in H as [Hfields _].
  split.
  - exists x06. done.
  - split; [|done]. by change (len (start_code ++ [x06])) with 5 in Hfields.
Qed.

(** Removing the 89 bytes at the offset of the unit restores the buffer
    around it. *)
Lemma remove_sei_unit pre sig post :
  length sig = 64%nat ->
  removed_at (pre ++ sei_unit sig ++ post) (len pre) sig
  = (Some sig, Some (pre ++ post)).
Proof.
  intros Hl. unfold removed_at. do 3 f_equal.
  - unfold len. by rewrite Nat2Z.id, take_app_length.
  - replace (Z.to_nat (len pre + 89))
      with (length pre + length (sei_unit sig))%nat
      by (pose proof (sei_unit_length sig Hl); unfold len in *; lia).
    rewrite drop_app_add', drop_app_length; done.
Qed.

(** ** The selector always returns an offset *)

Lemma after_sps_pps_total fuel data i last :
  0 <= i -> 0 <= last -> len data - i < Z.of_nat fuel -> (0 < fuel)%nat ->
  exists r, after_sps_pps_loop fuel data i last = Ok r /\ 0 <= r.
Proof.
  revert i last. induction fuel as [|fuel IH]; intros i last Hi Hlast Hfuel Hpos; [lia|].
  simpl. destruct (Z.ltb_spec i (len data - 8)); [|exists (last + 100); split; [done|lia]].
  rewrite is_start_code_spec by lia. cbn [bind].
  case_bool_decide; [|apply IH; lia].
  destruct (getitem_in_range data (i + 4)) as (h & _ & ->); [lia|]. cbn [bind].
  destruct ((Z.land (byte_val h) 31 =? 7) || (Z.land (byte_val h) 31 =? 8));
    [|apply IH; lia].
  destruct (find_next_spec data (i + 4)) as (r & -> & Hn); [lia|]. cbn [bind].
  destruct (next_sc_range _ _ _ Hn) as [->|Hr]; [apply IH; lia|].
  destruct (Z.eqb_spec r (-1)); [lia|]. cbn [negb].
  destruct (getitem_in_range data (r + 4)) as (h' & _ & ->); [lia|]. cbn [bind].
  destruct (negb (Z.land (byte_val h') 31 =? 7) && negb (Z.land (byte_val h') 31 =? 8));
    [|apply IH; lia].
  exists r. split; [done|lia].
Qed.

Lemma find_position_after_sps_pps_total data :
  exists r, _find_position_after_sps_pps data = Ok r /\ 0 <= r.
Proof. apply after_sps_pps_total; unfold len; lia. Qed.

Lemma insertion_fallback_total data sps pps :
  exists r, insertion_fallback data sps pps = Ok r /\ 0 <= r.
Proof.
  unfold insertion_fallback. destruct (sps && pps).
  - apply find_position_after_sps_pps_total.
  - by exists 0.
Qed.

Lemma insertion_loop_total fuel data i sps pps :
  0 <= i -> len data - i < Z.of_nat fuel -> (0 < fuel)%nat ->
  exists r, insertion_loop fuel data i sps pps = Ok r /\ 0 <= r.
Proof.
  revert i sps pps.
  induction fuel as [|fuel IH]; intros i sps pps Hi Hfuel Hpos; [lia|].
  simpl. destruct (Z.ltb_spec i (len data - 8)); [|apply insertion_fallback_total].
  rewrite is_start_code_spec by lia. cbn [bind].
  case_bool_decide; [|apply IH; lia].
  destruct (getitem_in_range data (i + 4)) as (h & _ & ->); [lia|]. cbn [bind].
  destruct (find_next_spec data (i + 4)) as (r & -> & Hn); [lia|]. cbn [bind].
  assert (forall sps pps, exists r',
    (if r =? -1 then insertion_fallback data sps pps
     else insertion_loop fuel data r sps pps) = Ok r' /\ 0 <= r') as Hnext.
  { intros sps' pps'. destruct (next_sc_range _ _ _ Hn) as [->|Hr].
    - apply insertion_fallback_total.
    - destruct (Z.eqb_spec r (-1)); [lia|]. apply IH; lia. }
  destruct (Z.land (byte_val h) 31 =? 7); [apply Hnext|].
  destruct (Z.land (byte_val h) 31 =? 8); [apply Hnext|].
  destruct ((Z.land (byte_val h) 31 =? 1) && sps && pps); [exists i; split; [done|lia]|].
  destruct (Z.land (byte_val h) 31 =? 6); [|apply Hnext].
  destruct (Z.eqb_spec r (-1)) as [->|Hne]; cbn [negb].
  - apply insertion_fallback_total.
  - exists r. split; [done|]. destruct (next_sc_range _ _ _ Hn); lia.
Qed.

Lemma find_best_insertion_point_total data :
  exists off, _find_best_insertion_point data = Ok off /\ 0 <= off.
Proof. apply insertion_loop_total; unfold len; lia. Qed.

(** ** [_embed_in_sei_messages] *)

Lemma embed_spec data sig sei off :
  _create_sei_payload sig = Ok sei -> _find_best_insertion_point data = Ok off ->
  0 <= off ->
  _embed_in_sei_messages data sig
  = Ok (take (Z.to_nat off) data ++ sei ++ drop (Z.to_nat off) data).
Proof.
  intros Hsei Hoff Hpos. unfold _embed_in_sei_messages.
  rewrite Hsei, Hoff. cbn [bind].
  destruct (Z.eqb_spec off (-1)); [lia|].
  by rewrite slice_to_pos, slice_from_pos.
Qed.

(** A slice bound past the end of the buffer is clamped to its length. *)
Lemma take_drop_clamp (data : list byte) (off : Z) :
  0 <= off ->
  take (Z.to_nat off) data = take (Z.to_nat (Z.min off (len data))) data
  /\ drop (Z.to_nat off) data = drop (Z.to_nat (Z.min off (len data))) data.
Proof.
  intros Hoff. destruct (Z.min_spec off (len data)) as [[_ ->]|[Hge ->]]; [done|].
  unfold len in *. rewrite Nat2Z.id.
  rewrite !take_ge, !drop_ge by lia. done.
Qed.

Lemma nalb_spec data i t : 0 <= i -> nal data i t <-> nalb data i t = true.
Proof.
  intros Hi. unfold nalb. rewrite andb_true_iff, bool_decide_eq_true. split.
  - intros H. pose proof (nal_sc _ _ _ H) as Hsc. split; [done|].
    pose proof (nal_bound _ _ _ H) as [_ Hb].
    destruct (getitem_in_range data (i + 4)) as (h & Hh & _); [lia|].
    rewrite Hh. apply Z.eqb_eq. by eapply nal_header.
  - intros [Hsc H]. destruct (data !! Z.to_nat (i + 4)) as [h|] eqn:Hh; [|done].
    apply Z.eqb_eq in H. rewrite <- H. by apply nal_intro.
Qed.

Lemma nalb_false data i t : nalb data i t = false -> ~ nal data i t.
Proof.
  intros Hf Hn. pose proof (nal_bound _ _ _ Hn) as [Hi _].
  apply nalb_spec in Hn; [congruence|done].
Qed.

(** ** The claims on the reader and the extractor *)

(** C3. Where a unit that the writer built from a 64-byte signature stands
    in a buffer, [_parse_sei_and_get_length] succeeds with that signature
    and the length 4 + 1 + type field bytes + size field bytes + 81 + 1,
    with one byte for each field; this is the length of the unit, 89, and
    deleting the span [start, start + length) leaves exactly the bytes
    around the unit. *)
Theorem C3_parsed_length_is_unit_length (pre post sig : list byte)
    (Hsig : length sig = 64%nat) :
  exists sei type_bytes size_bytes,
    _create_sei_payload sig = Ok sei
    /\ field_bytes 5 = Ok type_bytes /\ field_bytes 81 = Ok size_bytes
    /\ let data := pre ++ sei ++ post in
       let sei_length := 4 + 1 + type_bytes + size_bytes + 81 + 1 in
       _parse_sei_and_get_length data (len pre) = Ok (Some sig, sei_length)
       /\ sei_length = len sei
       /\ slice_to data (len pre) ++ slice_from data (len pre + sei_length)
          = pre ++ post.
Proof.
  exists (sei_unit sig), 1, 1.
  split; [by apply create_sei_payload_64|]. split; [done|]. split; [done|].
  cbn zeta. pose proof (len_nonneg pre).
  pose proof (sei_unit_valid pre sig post Hsig) as [_ Hu].
  split; [|split].
  - by apply parse_unit.
  - by rewrite sei_unit_length.
  - rewrite slice_to_pos, slice_from_pos by lia.
    pose proof (remove_sei_unit pre sig post Hsig) as E.
    unfold removed_at in E. by simplify_eq.
Qed.

Lemma C3_parsed_length_is_unit_length_witness :
  exists sei type_bytes size_bytes,
    _create_sei_payload sig_ab = Ok sei
    /\ field_bytes 5 = Ok type_bytes /\ field_bytes 81 = Ok size_bytes
    /\ let data := [x00; x01] ++ sei ++ [x02] in
       let sei_length := 4 + 1 + type_bytes + size_bytes + 81 + 1 in
       _parse_sei_and_get_length data (len [x00; x01]) = Ok (Some sig_ab, sei_length)
       /\ sei_length = len sei
       /\ slice_to data (len [x00; x01])
            ++ slice_from data (len [x00; x01] + sei_length)
          = [x00; x01] ++ [x02].
Proof.
  apply (C3_parsed_length_is_unit_length [x00; x01] [x02] sig_ab). reflexivity.
Defined.

(** C8. The extractor always returns.  A unit whose declared size is not
    81 or whose payload does not start with the tag is rejected by the
    reader and never validates.  The extractor returns a signature only
    from a unit that validates (a NAL unit of type 6 with payload type 5,
    declared size 81 and the tag), and then it is the first such unit of
    the buffer, which it removes, whatever units of type 6 come before it;
    and it reports not-found exactly when no unit of the buffer
    validates. *)
Theorem C8_first_valid_unit_or_not_found (data : list byte) :
  (exists r, _extract_signature_and_remove_watermark data = Ok r)
  /\ (forall p, 0 <= p ->
        ~ at_pos data (p + 6) [x51] \/ ~ at_pos data (p + 7) uuid ->
        _parse_sei_and_get_length data p = Ok (None, 0)
        /\ forall sig, ~ valid_at data p sig)
  /\ (forall sig restored,
        _extract_signature_and_remove_watermark data = Ok (Some sig, restored) ->
        exists p, valid_at data p sig /\ none_valid data 0 p
          /\ restored = Some (take (Z.to_nat p) data ++ drop (Z.to_nat (p + 89)) data))
  /\ (forall p sig, valid_at data p sig -> none_valid data 0 p ->
        _extract_signature_and_remove_watermark data = Ok (removed_at data p sig))
  /\ (_extract_signature_and_remove_watermark data = Ok (None, None)
      <-> forall p sig, ~ valid_at data p sig).
Proof.
  split; [|split; [|split; [|split]]].
  - destruct (extract_spec data) as [(p & sig & _ & _ & ->)|[_ ->]]; eauto.
  - intros p Hp Hbad.
    assert (forall sig, ~ unit_at data p sig) as Hno.
    { intros sig [Hu _].
      change ([x05; x51] ++ uuid ++ sig) with ([x05] ++ [x51] ++ uuid ++ sig) in Hu.
      apply at_pos_app in Hu as [_ Hu]. apply at_pos_app in Hu as [H51 Hu].
      apply at_pos_app in Hu as [Huuid _].
      change (len [x05]) with 1 in *. change (len [x51]) with 1 in *.
      replace (p + 5 + 1 + 1) with (p + 7) in Huuid by lia.
      replace (p + 5 + 1) with (p + 6) in H51 by lia. tauto. }
    split; [|intros sig [_ Hu]; by eapply Hno].
    destruct (parse_cases data p Hp) as [E|(sig & _ & Hu)]; [done|].
    by apply Hno in Hu.
  - intros sig restored E.
    destruct (extract_spec data) as [(p & sig' & Hv & Hnone & E')|[_ E']];
      rewrite E' in E; [|done].
    unfold removed_at in E. simplify_eq. by exists p.
  - apply extract_first.
  - split.
    + intros E p sig Hv.
      destruct (extract_spec data) as [(p' & sig' & _ & _ & E')|[Hnone _]].
      * rewrite E' in E. done.
      * pose proof (valid_at_bound _ _ _ Hv). apply (Hnone p sig); [lia|done].
    + intros Hnone.
      destruct (extract_spec data) as [(p' & sig' & Hv & _)|[_ E']]; [|done].
      by apply Hnone in Hv.
Qed.

(** C10. The reader never looks at the byte after the payload.  Whatever
    follows the 81 payload bytes -- a byte other than 0x80, or nothing at
    all -- the unit is accepted as soon as its payload type, declared size,
    tag and 64 signature bytes check out, and the length returned is still
    89, one more than the bytes checked; the extractor then removes that
    span, which takes the first byte of whatever follows. *)
Theorem C10_trailing_byte_unchecked (pre tail sig : list byte) (h : byte)
    (Hsig : length sig = 64%nat) :
  let checked := (start_code ++ [h]) ++ ([x05; x51] ++ uuid ++ sig) in
  let data := pre ++ checked ++ tail in
  _parse_sei_and_get_length data (len pre) = Ok (Some sig, 89)
  /\ 89 = len checked + 1
  /\ (Z.land (byte_val h) 0x1F = 6 -> none_valid data 0 (len pre) ->
      _extract_signature_and_remove_watermark data
      = Ok (Some sig, Some (pre ++ drop 1 tail))).
Proof.
  cbn zeta. pose proof (len_nonneg pre) as Hpre.
  set (checked := (start_code ++ [h]) ++ ([x05; x51] ++ uuid ++ sig)).
  assert (length checked = 88%nat) as Hl88.
  { unfold checked. rewrite !length_app, Hsig. done. }
  pose proof (at_pos_middle pre checked tail) as H.
  unfold checked in H at 2. apply at_pos_app in H as [Hhead Hfields].
  change (len (start_code ++ [h])) with 5 in Hfields.
  assert (unit_at (pre ++ checked ++ tail) (len pre) sig) as Hu by done.
  split; [by apply parse_unit|]. split; [unfold len; lia|].
  intros H6 Hnone.
  rewrite (extract_first _ (len pre) sig); [|split; [by exists h|done]|done].
  unfold removed_at.
  replace (Z.to_nat (len pre + 89)) with (length pre + (length checked + 1))%nat
    by (unfold len; lia).
  unfold len. rewrite Nat2Z.id, take_app_length.
  by rewrite drop_app_add', drop_app_add'.
Qed.

Lemma C10_trailing_byte_unchecked_witness :
  let wrong_trailer := (start_code ++ [x06]) ++ ([x05; x51] ++ uuid ++ sig_ab) ++ [x7f; x01] in
  let no_trailer := (start_code ++ [x06]) ++ ([x05; x51] ++ uuid ++ sig_ab) in
  (_parse_sei_and_get_length wrong_trailer 0 = Ok (Some sig_ab, 89)
   /\ _extract_signature_and_remove_watermark wrong_trailer = Ok (Some sig_ab, Some [x01]))
  /\ (_parse_sei_and_get_length no_trailer 0 = Ok (Some sig_ab, 89)
      /\ len no_trailer = 88
      /\ _extract_signature_and_remove_watermark no_trailer = Ok (Some sig_ab, Some [])).
Proof.
  cbn zeta. split.
  - destruct (C10_trailing_byte_unchecked [] [x7f; x01] sig_ab x06 eq_refl)
      as (Hp & _ & He).
    split; [exact Hp|]. apply He; [reflexivity|]. intros q s Hq. unfold len in Hq.
    simpl in Hq. lia.
  - destruct (C10_trailing_byte_unchecked [] [] sig_ab x06 eq_refl)
      as (Hp & _ & He).
    rewrite app_nil_r in Hp, He.
    split; [exact Hp|]. split; [reflexivity|].
    apply He; [reflexivity|]. intros q s Hq. unfold len in Hq. simpl in Hq. lia.
Defined.

(** ** The claims on the embedder *)

(** C4. For a 64-byte signature the embedder returns the buffer with the
    unit spliced in at the selected offset, [B[:off] ++ unit ++ B[off:]];
    the unit is 89 bytes long and the result [len(B) + 89] bytes.  (The
    buffers are values: nothing is updated in place.) *)
Theorem C4_embed_splices_unit (B S : list byte) (Hsig : length S = 64%nat) :
  exists off sei,
    _find_best_insertion_point B = Ok off
    /\ _create_sei_payload S = Ok sei
    /\ len sei = 89
    /\ _embed_in_sei_messages B S = Ok (slice_to B off ++ sei ++ slice_from B off)
    /\ len (slice_to B off ++ sei ++ slice_from B off) = len B + 89.
Proof.
  destruct (find_best_insertion_point_total B) as (off & Hoff & Hpos).
  pose proof (create_sei_payload_64 S Hsig) as Hsei.
  exists off, (sei_unit S). split; [done|]. split; [done|].
  split; [by apply sei_unit_length|].
  rewrite slice_to_pos, slice_from_pos by done.
  split; [by apply embed_spec|].
  rewrite !len_app, sei_unit_length by done.
  rewrite <- (take_drop (Z.to_nat off) B) at 3. rewrite len_app. lia.
Qed.

Lemma C4_embed_splices_unit_witness :
  exists off sei,
    _find_best_insertion_point video_sps_pps_slice = Ok off
    /\ _create_sei_payload sig_ab = Ok sei
    /\ len sei = 89
    /\ _embed_in_sei_messages video_sps_pps_slice sig_ab
       = Ok (slice_to video_sps_pps_slice off ++ sei
               ++ slice_from video_sps_pps_slice off)
    /\ len (slice_to video_sps_pps_slice off ++ sei
              ++ slice_from video_sps_pps_slice off)
       = len video_sps_pps_slice + 89.
Proof. apply (C4_embed_splices_unit video_sps_pps_slice sig_ab). reflexivity. Defined.

(** C5, as the code has it.  The embedder does not look at the length of
    the signature: for every buffer and every byte string [S] it succeeds,
    and splices in a unit whose size field declares [17 + len(S)] and whose
    payload is the tag followed by [S]. *)
Theorem C5_signature_length_unchecked (B S : list byte) :
  exists off (k : nat) (b : byte),
    _find_best_insertion_point B = Ok off
    /\ 255 * Z.of_nat k + byte_val b = 17 + len S /\ byte_val b < 255
    /\ _embed_in_sei_messages B S
       = Ok (slice_to B off
               ++ (start_code ++ [x06; x05] ++ (replicate k xff ++ [b])
                     ++ (uuid ++ S) ++ [x80])
               ++ slice_from B off).
Proof.
  destruct (find_best_insertion_point_total B) as (off & Hoff & Hpos).
  destruct (create_sei_payload_any S) as (k & b & Hk & Hb & Hsei).
  exists off, k, b. split; [done|]. split; [lia|]. split; [lia|].
  rewrite slice_to_pos, slice_from_pos by done. by apply embed_spec.
Qed.

(** C5, as claimed, fails: a one-byte signature is embedded. *)
Lemma C5_short_signature_embedded :
  length [x01] <> 64%nat
  /\ _embed_in_sei_messages [] [x01]
     = Ok (start_code ++ [x06; x05; x12] ++ uuid ++ [x01] ++ [x80])
  /\ forall e, _embed_in_sei_messages [] [x01] <> Raise e.
Proof. split; [done|]. split; [reflexivity|]. intros e. discriminate. Qed.

Lemma nal_check data t lo hi :
  forallb (fun q => negb (nalb data q t)) (seqZ lo (hi - lo)) = true ->
  forall q, lo <= q < hi -> ~ nal data q t.
Proof.
  intros Hall q Hq.
  rewrite forallb_forall in Hall. specialize (Hall q).
  apply nalb_false, negb_true_iff, Hall.
  apply list_elem_of_In, elem_of_seqZ. lia.
Qed.

Lemma none_valid_check data lo hi :
  forallb (fun q => negb (nalb data q 6)) (seqZ lo (hi - lo)) = true ->
  none_valid data lo hi.
Proof. intros Hall q s Hq [Hn _]. by apply (nal_check _ _ _ _ Hall q). Qed.

(** C1, as the code has it.  For every buffer [B] and 64-byte signature
    [S] the embedder returns a buffer, and when no unit that validates
    starts in it before the spliced unit, the extractor returns exactly
    [S] and [B]. *)
Theorem C1_roundtrip_unless_earlier_unit (B S : list byte)
    (Hsig : length S = 64%nat) :
  exists off wm,
    _find_best_insertion_point B = Ok off
    /\ _embed_in_sei_messages B S = Ok wm
    /\ (none_valid wm 0 (Z.min off (len B)) ->
        _extract_signature_and_remove_watermark wm = Ok (Some S, Some B)).
Proof.
  destruct (find_best_insertion_point_total B) as (off & Hoff & Hpos).
  pose proof (create_sei_payload_64 S Hsig) as Hsei.
  pose proof (embed_spec B S _ off Hsei Hoff Hpos) as Hwm.
  destruct (take_drop_clamp B off Hpos) as [Ht Hd].
  rewrite Ht, Hd in Hwm.
  set (k := Z.to_nat (Z.min off (len B))) in *.
  exists off, (take k B ++ sei_unit S ++ drop k B).
  split; [done|]. split; [done|]. intros Hnone.
  assert (len (take k B) = Z.min off (len B)) as Hk.
  { unfold len, k. rewrite length_take. unfold len. lia. }
  rewrite <- Hk in Hnone.
  rewrite (extract_first _ (len (take k B)) S);
    [|by apply sei_unit_valid|done].
  rewrite remove_sei_unit by done. by rewrite take_drop.
Qed.

Lemma C1_roundtrip_unless_earlier_unit_witness :
  (do wm <- _embed_in_sei_messages video_sps_pps_slice sig_cd;
   _extract_signature_and_remove_watermark wm)
  = Ok (Some sig_cd, Some video_sps_pps_slice).
Proof.
  destruct (C1_roundtrip_unless_earlier_unit video_sps_pps_slice sig_cd eq_refl)
    as (off & wm & Hoff & Hwm & Hrt).
  rewrite Hwm. cbn [bind]. apply Hrt.
  vm_compute in Hoff. injection Hoff as <-.
  vm_compute in Hwm. injection Hwm as <-.
  apply none_valid_check. vm_compute. reflexivity.
Defined.

(** C1, as claimed, fails on a stream that already carries a watermark: the
    second unit goes after the first, and the extractor returns the first
    signature and leaves the second unit in the stream. *)
Lemma C1_already_signed_stream :
  length sig_cd = 64%nat
  /\ (do wm <- _embed_in_sei_messages video_signed sig_cd;
      _extract_signature_and_remove_watermark wm)
     = Ok (Some sig_ab,
           Some (take 12 video_sps_pps_slice ++ sei_unit sig_cd
                   ++ drop 12 video_sps_pps_slice))
  /\ (Some sig_ab,
      Some (take 12 video_sps_pps_slice ++ sei_unit sig_cd
              ++ drop 12 video_sps_pps_slice))
     <> (Some sig_cd, Some video_signed).
Proof.
  split; [reflexivity|]. split; [vm_compute; reflexivity|].
  vm_compute. discriminate.
Qed.

(** ** The claims on the selector *)

Lemma next_sc_of_find data s r :
  0 <= s -> _find_next_start_code data s = Ok r -> next_sc data s r.
Proof.
  intros Hs E. destruct (find_next_spec data s Hs) as (r' & E' & Hn). congruence.
Qed.

(** Between a start code and the next one the scanner finds, no further
    unit starts: what was seen before the next one is what was seen up to
    this one. *)
Lemma seen_next data i r t :
  sc_at data i -> next_sc data (i + 4) r -> i < r -> r < len data - 4 ->
  seen data t r <-> seen data t (i + 1).
Proof.
  intros Hi Hn Hir Hrl. split; intros (a & Ha & Hnal).
  - exists a. split; [|done].
    destruct (Z.lt_ge_cases a (i + 1)); [done|exfalso].
    apply (no_sc_between data i r a); [done|done|lia|right; lia|lia|].
    by eapply nal_sc.
  - exists a. split; [lia|done].
Qed.

Lemma seen_step data i t :
  ~ nal data i t -> seen data t (i + 1) <-> seen data t i.
Proof.
  intros Hn. split; intros (a & Ha & Hnal).
  - exists a. split; [|done]. destruct (decide (a = i)) as [->|]; [done|lia].
  - exists a. split; [lia|done].
Qed.

Lemma seen_here data i t : nal data i t -> seen data t (i + 1).
Proof. intros H. exists i. split; [lia|done]. Qed.

Section first_slice.
Context (data : list byte) (p : Z).
Hypothesis Hslice : qualifying_slice data p.
Hypothesis Hfirst : forall q, q < p -> ~ qualifying_slice data q.
Hypothesis Hsei : forall q, q < p -> nal data q 6 -> next_sc data (q + 4) p.

Lemma insertion_loop_slice fuel i sps pps :
  0 <= i <= p -> p - i < Z.of_nat fuel ->
  (sps = true <-> seen data 7 i) -> (pps = true <-> seen data 8 i) ->
  insertion_loop fuel data i sps pps = Ok p.
Proof using Hslice Hfirst Hsei.
  destruct Hslice as (Hp1 & Hpl & Hp7 & Hp8).
  pose proof (nal_sc _ _ _ Hp1) as Hpsc.
  revert i sps pps.
  induction fuel as [|fuel IH]; intros i sps pps Hi Hfuel Hsps Hpps; [lia|].
  simpl. destruct (Z.ltb_spec i (len data - 8)); [|lia].
  rewrite is_start_code_spec by lia. cbn [bind].
  case_bool_decide as Hsc; cycle 1.
  { assert (i <> p) by (by intros ->).
    apply IH; [lia|lia| |].
    - rewrite Hsps. symmetry. apply seen_step. intros Hn. by apply nal_sc in Hn.
    - rewrite Hpps. symmetry. apply seen_step. intros Hn. by apply nal_sc in Hn. }
  destruct (getitem_in_range data (i + 4)) as (h & Hh & ->); [lia|]. cbn [bind].
  pose proof (nal_intro _ _ _ Hsc Hh) as Hnal.
  set (t := Z.land (byte_val h) 31) in *.
  destruct (find_next_spec data (i + 4)) as (r & Hfind & Hn); [lia|].
  rewrite Hfind. cbn [bind].
  assert (forall sps' pps', i < p ->
    (sps' = true <-> seen data 7 (i + 1)) ->
    (pps' = true <-> seen data 8 (i + 1)) ->
    (if r =? -1 then insertion_fallback data sps' pps'
     else insertion_loop fuel data r sps' pps') = Ok p) as Hnext.
  { intros sps' pps' Hip Hsps' Hpps'.
    destruct (next_sc_before data i p r Hsc Hpsc Hip ltac:(lia) Hn) as (Hr & Hrsc & _).
    destruct (Z.eqb_spec r (-1)); [lia|].
    apply IH; [lia|lia| |].
    - rewrite Hsps'. symmetry. apply (seen_next data i r); [done|done|lia|lia].
    - rewrite Hpps'. symmetry. apply (seen_next data i r); [done|done|lia|lia]. }
  assert (forall t', t <> t' -> seen data t' (i + 1) <-> seen data t' i) as Hstep.
  { intros t' Hne. apply seen_step. intros Hn'. apply Hne. by eapply nal_type_unique. }
  assert (t <> 1 -> i < p) as Hlt.
  { intros Hne. destruct (decide (i = p)) as [->|]; [|lia].
    exfalso. apply Hne. by eapply nal_type_unique. }
  destruct (Z.eqb_spec t 7) as [H7|Hn7].
  { rewrite H7 in *. apply Hnext; [apply Hlt; lia| |].
    - split; [intros _; by apply seen_here|done].
    - rewrite Hpps. symmetry. apply Hstep. lia. }
  destruct (Z.eqb_spec t 8) as [H8|Hn8].
  { rewrite H8 in *. apply Hnext; [apply Hlt; lia| |].
    - rewrite Hsps. symmetry. apply Hstep. lia.
    - split; [intros _; by apply seen_here|done]. }
  destruct (Z.eqb_spec t 1) as [H1|Hn1]; cbn [andb].
  - rewrite H1 in *. destruct sps, pps; cbn [andb].
    + (* the first slice after both parameter sets *)
      f_equal. destruct (Z.lt_trichotomy i p) as [Hip|[->|Hip]]; [|done|lia].
      exfalso. apply (Hfirst i Hip). split; [done|]. split; [lia|]. split.
      * by apply Hsps.
      * by apply Hpps.
    + assert (i < p).
      { destruct (decide (i = p)) as [->|]; [|lia]. by apply Hpps in Hp8. }
      apply Hnext; [done|rewrite Hsps|rewrite Hpps]; symmetry; apply Hstep; lia.
    + assert (i < p).
      { destruct (decide (i = p)) as [->|]; [|lia]. by apply Hsps in Hp7. }
      apply Hnext; [done|rewrite Hsps|rewrite Hpps]; symmetry; apply Hstep; lia.
    + assert (i < p).
      { destruct (decide (i = p)) as [->|]; [|lia]. by apply Hsps in Hp7. }
      apply Hnext; [done|rewrite Hsps|rewrite Hpps]; symmetry; apply Hstep; lia.
  - specialize (Hlt Hn1).
    destruct (Z.eqb_spec t 6) as [H6|Hn6].
    + (* a unit of type 6 before the slice: the next start code is returned *)
      rewrite H6 in *. pose proof (Hsei i Hlt Hnal) as Hnp.
      rewrite (next_sc_unique _ _ _ _ Hn Hnp).
      destruct (Z.eqb_spec p (-1)); [lia|done].
    + apply Hnext; [done|rewrite Hsps|rewrite Hpps]; symmetry; apply Hstep; lia.
Qed.
End first_slice.

(** C6, as the code has it.  When the scan meets a coded slice (type 1)
    after a unit of each parameter-set type, the selector returns the
    offset of the first such slice, provided that no unit of type 6 starts
    before it other than, possibly, the unit right before it: a unit of
    type 6 the scan meets earlier is handled first, and the start code
    after that unit is returned. *)
Theorem C6_first_slice_after_parameter_sets (data : list byte) (p : Z)
    (Hslice : qualifying_slice data p)
    (Hfirst : forall q, q < p -> ~ qualifying_slice data q)
    (Hsei : forall q, q < p -> nal data q 6 -> next_sc data (q + 4) p) :
  _find_best_insertion_point data = Ok p.
Proof.
  pose proof Hslice as (Hp1 & Hpl & _). apply nal_bound in Hp1 as [Hp0 _].
  apply (insertion_loop_slice data p Hslice Hfirst Hsei); [lia|unfold len in *; lia| |].
  - split; [done|]. intros (a & Ha & Hn). apply nal_bound in Hn. lia.
  - split; [done|]. intros (a & Ha & Hn). apply nal_bound in Hn. lia.
Qed.

Lemma nal_by_check data i t : 0 <= i -> nalb data i t = true -> nal data i t.
Proof. intros Hi H. by apply nalb_spec. Qed.

Lemma no_nal_by_check data t :
  forallb (fun q => negb (nalb data q t)) (seqZ 0 (len data)) = true ->
  forall q, ~ nal data q t.
Proof.
  intros Hall q Hn. pose proof (nal_bound _ _ _ Hn).
  apply (nal_check data t 0 (len data)) with q; [by rewrite Z.sub_0_r|lia|done].
Qed.

Lemma C6_first_slice_after_parameter_sets_witness :
  _find_best_insertion_point video_sps_pps_slice = Ok 12.
Proof.
  apply (C6_first_slice_after_parameter_sets video_sps_pps_slice 12).
  - split; [by apply nal_by_check|]. split; [by vm_compute|].
    split; [exists 0|exists 6]; (split; [lia|by apply nal_by_check]).
  - intros q Hq (Hn & _). pose proof (nal_bound _ _ _ Hn).
    refine (nal_check video_sps_pps_slice 1 0 12 _ q _ Hn); [by vm_compute|lia].
  - intros q Hq Hn. exfalso.
    refine (no_nal_by_check video_sps_pps_slice 6 _ q Hn). by vm_compute.
Defined.

(** C6, as claimed, fails when a unit of type 6 comes first: the slice at
    offset 18 is the first one after both parameter sets, and the selector
    returns 6, the start code after the type-6 unit. *)
Lemma C6_sei_unit_first :
  qualifying_slice video_sei_first 18
  /\ (forall q, q < 18 -> ~ qualifying_slice video_sei_first q)
  /\ _find_best_insertion_point video_sei_first = Ok 6
  /\ _find_best_insertion_point video_sei_first <> Ok 18.
Proof.
  split; [|split; [|split]].
  - split; [by apply nal_by_check|]. split; [by vm_compute|].
    split; [exists 6|exists 12]; (split; [lia|by apply nal_by_check]).
  - intros q Hq (Hn & _). pose proof (nal_bound _ _ _ Hn).
    refine (nal_check video_sei_first 1 0 18 _ q _ Hn); [by vm_compute|lia].
  - reflexivity.
  - vm_compute. discriminate.
Qed.

Section after_first_run.
Context (data : list byte) (p q : Z).
Hypothesis Hrun : run_end data p q.
Hypothesis Hfirst : forall p' q', p' < p -> ~ run_end data p' q'.

Lemma after_sps_pps_loop_first_run fuel i last :
  0 <= i <= p -> p - i < Z.of_nat fuel ->
  after_sps_pps_loop fuel data i last = Ok q.
Proof using Hrun Hfirst.
  destruct Hrun as (Hpl & Hpp & Hpn & Hq1 & Hqn).
  assert (sc_at data p) as Hpsc by (destruct Hpp as [H|H]; by eapply nal_sc).
  revert i last.
  induction fuel as [|fuel IH]; intros i last Hi Hfuel; [lia|].
  simpl. destruct (Z.ltb_spec i (len data - 8)) as [Hlt|]; [|lia].
  rewrite is_start_code_spec by lia. cbn [bind].
  case_bool_decide as Hsc; cycle 1.
  { assert (i <> p) by (by intros ->). apply IH; lia. }
  assert (i <> p -> i + 4 <= p) as Hnext.
  { intros Hne. apply (sc_at_apart data i p); [done|done|lia]. }
  destruct (getitem_in_range data (i + 4)) as (h & Hh & ->); [lia|]. cbn [bind].
  pose proof (nal_intro _ _ _ Hsc Hh) as Hnal.
  set (t := Z.land (byte_val h) 31) in *.
  assert ((t =? 7) || (t =? 8) = true <-> param_set data i) as Hparam.
  { rewrite orb_true_iff, !Z.eqb_eq. unfold param_set. split.
    - intros [<-|<-]; auto.
    - intros [Hx|Hx]; [left|right]; by eapply nal_type_unique. }
  destruct ((t =? 7) || (t =? 8)); cycle 1.
  { assert (i <> p) by (intros ->; by apply Hparam in Hpp).
    apply IH; lia. }
  assert (param_set data i) as Hpi by (by apply Hparam).
  destruct (find_next_spec data (i + 4)) as (r & -> & Hn); [lia|]. cbn [bind].
  destruct (next_sc_range _ _ _ Hn) as [->|Hr].
  { (* no start code after this parameter set *)
    assert (i <> p).
    { intros ->. by rewrite (next_sc_unique _ _ _ _ Hpn Hn) in Hq1. }
    apply IH; lia. }
  destruct (Z.eqb_spec r (-1)); [lia|]. cbn [negb].
  destruct (getitem_in_range data (r + 4)) as (h' & Hh' & ->); [lia|]. cbn [bind].
  assert (sc_at data r) as Hrsc.
  { destruct Hn as [[-> _]|(_ & Hx & _)]; [lia|done]. }
  pose proof (nal_intro _ _ _ Hrsc Hh') as Hnal'.
  set (t' := Z.land (byte_val h') 31) in *.
  assert (negb (t' =? 7) && negb (t' =? 8) = true <-> ~ param_set data r) as Hparam'.
  { rewrite andb_true_iff, !negb_true_iff, !Z.eqb_neq. unfold param_set. split.
    - intros [H7 H8] [Hx|Hx]; [apply H7|apply H8]; by eapply nal_type_unique.
    - intros Hx. split; intros E; apply Hx; rewrite <- E; auto. }
  destruct (negb (t' =? 7) && negb (t' =? 8)).
  - (* the run ends at [r] *)
    assert (run_end data i r) as Hir.
    { split; [lia|]. split; [done|]. split; [done|]. split; [lia|]. by apply Hparam'. }
    destruct (Z.lt_trichotomy i p) as [Hip|[->|Hip]]; [|..].
    + exfalso. by apply (Hfirst i r).
    + f_equal. by eapply next_sc_unique.
    + lia.
  - assert (i <> p).
    { intros ->. rewrite (next_sc_unique _ _ _ _ Hpn Hn) in Hqn.
      apply Hparam' in Hqn. done. }
    apply IH; lia.
Qed.

Lemma find_position_after_first_run : _find_position_after_sps_pps data = Ok q.
Proof using Hrun Hfirst.
  destruct Hrun as (Hpl & Hpp & _).
  assert (0 <= p) by (destruct Hpp as [H|H]; apply nal_bound in H; lia).
  apply after_sps_pps_loop_first_run; unfold len in *; lia.
Qed.
End after_first_run.

Section no_early_return.
Context (data : list byte).
Hypothesis Hslice : forall p, ~ qualifying_slice data p.
Hypothesis Hsei : forall p r, ~ sei_with_follower data p r.

(** When the loop returns for neither a slice nor a unit of type 6, it
    runs to its end and the fallback decides. *)
Lemma insertion_loop_fallthrough fuel i sps pps :
  0 <= i -> len data - i < Z.of_nat fuel -> (0 < fuel)%nat ->
  (sps = true -> seen data 7 i) -> (pps = true -> seen data 8 i) ->
  (sps = true \/ exists a, i <= a /\ a + 8 < len data /\ nal data a 7) ->
  (pps = true \/ exists a, i <= a /\ a + 8 < len data /\ nal data a 8) ->
  insertion_loop fuel data i sps pps = _find_position_after_sps_pps data.
Proof using Hslice Hsei.
  revert i sps pps.
  induction fuel as [|fuel IH];
    intros i sps pps Hi Hfuel Hpos Hs7 Hs8 Hw7 Hw8; [lia|].
  assert (forall t, (exists a, i <= a /\ a + 8 < len data /\ nal data a t) ->
            ~ nal data i t ->
            exists a, i + 1 <= a /\ a + 8 < len data /\ nal data a t) as Hlater.
  { intros t (a & Ha & Hal & Hn) Hni. exists a.
    destruct (decide (a = i)) as [->|]; [done|]. split; [lia|done]. }
  simpl. destruct (Z.ltb_spec i (len data - 8)) as [Hlt|Hge].
  2:{ unfold insertion_fallback.
      destruct Hw7 as [->|(a & ? & ? & _)]; [|lia].
      destruct Hw8 as [->|(a & ? & ? & _)]; [|lia]. done. }
  rewrite is_start_code_spec by lia. cbn [bind].
  case_bool_decide as Hsc; cycle 1.
  { assert (forall t, ~ nal data i t) as Hni.
    { intros t Hn. by apply nal_sc in Hn. }
    apply IH; [lia..| | | |].
    - intros Hx. apply seen_step; [apply Hni|auto].
    - intros Hx. apply seen_step; [apply Hni|auto].
    - destruct Hw7 as [|Hx]; [by left|right]. by apply Hlater.
    - destruct Hw8 as [|Hx]; [by left|right]. by apply Hlater. }
  destruct (getitem_in_range data (i + 4)) as (h & Hh & ->); [lia|]. cbn [bind].
  pose proof (nal_intro _ _ _ Hsc Hh) as Hnal.
  set (t := Z.land (byte_val h) 31) in *.
  destruct (find_next_spec data (i + 4)) as (r & -> & Hn); [lia|]. cbn [bind].
  (* the units the scan has yet to meet start at [r] or later *)
  assert (forall t', (exists a, i + 1 <= a /\ a + 8 < len data /\ nal data a t') ->
            r <> -1 /\ exists a, r <= a /\ a + 8 < len data /\ nal data a t') as Hjump.
  { intros t' (a & Ha & Hal & Hna). pose proof (nal_sc _ _ _ Hna) as Hasc.
    destruct (next_sc_before data i a r Hsc Hasc ltac:(lia) ltac:(lia) Hn) as (Hr & _).
    split; [lia|]. exists a.
    split; [|done]. lia. }
  assert (forall sps' pps',
    (sps' = true -> seen data 7 (i + 1)) -> (pps' = true -> seen data 8 (i + 1)) ->
    (sps' = true \/ exists a, i + 1 <= a /\ a + 8 < len data /\ nal data a 7) ->
    (pps' = true \/ exists a, i + 1 <= a /\ a + 8 < len data /\ nal data a 8) ->
    (if r =? -1 then insertion_fallback data sps' pps'
     else insertion_loop fuel data r sps' pps')
    = _find_position_after_sps_pps data) as Hnext.
  { intros sps' pps' Hs7' Hs8' Hw7' Hw8'.
    destruct (next_sc_range _ _ _ Hn) as [->|Hr].
    - unfold insertion_fallback. cbn.
      destruct Hw7' as [->|Hx]; [|apply Hjump in Hx as [? _]; done].
      destruct Hw8' as [->|Hx]; [|apply Hjump in Hx as [? _]; done]. done.
    - destruct (Z.eqb_spec r (-1)); [lia|].
      assert (sc_at data r) as Hrsc.
      { destruct Hn as [[-> _]|(_ & Hx & _)]; [lia|done]. }
      apply IH; [lia..| | | |].
      + intros Hx. apply (seen_next data i r); [done|done|lia|lia|auto].
      + intros Hx. apply (seen_next data i r); [done|done|lia|lia|auto].
      + destruct Hw7' as [|Hx]; [by left|right]. by apply Hjump in Hx as [_ Hx].
      + destruct Hw8' as [|Hx]; [by left|right]. by apply Hjump in Hx as [_ Hx]. }
  assert (forall t', t <> t' -> ~ nal data i t') as Hother.
  { intros t' Hne Hn'. apply Hne. by eapply nal_type_unique. }
  assert (forall t', t <> t' -> seen data t' i -> seen data t' (i + 1)) as Hkeep.
  { intros t' Hne Hx. apply seen_step; [by apply Hother|done]. }
  destruct (Z.eqb_spec t 7) as [H7|Hn7].
  { apply Hnext.
    - intros _. rewrite H7 in Hnal. by apply seen_here.
    - intros Hx. apply Hkeep; [lia|auto].
    - by left.
    - destruct Hw8 as [|Hx]; [by left|right]. apply Hlater; [done|]. apply Hother. lia. }
  destruct (Z.eqb_spec t 8) as [H8|Hn8].
  { apply Hnext.
    - intros Hx. apply Hkeep; [lia|auto].
    - intros _. rewrite H8 in Hnal. by apply seen_here.
    - destruct Hw7 as [|Hx]; [by left|right]. apply Hlater; [done|]. apply Hother. lia.
    - by left. }
  assert ((if r =? -1 then insertion_fallback data sps pps
           else insertion_loop fuel data r sps pps)
          = _find_position_after_sps_pps data) as Hsame.
  { apply Hnext.
    - intros Hx. apply Hkeep; [lia|auto].
    - intros Hx. apply Hkeep; [lia|auto].
    - destruct Hw7 as [|Hx]; [by left|right]. apply Hlater; [done|]. apply Hother. lia.
    - destruct Hw8 as [|Hx]; [by left|right]. apply Hlater; [done|]. apply Hother. lia. }
  destruct (Z.eqb_spec t 1) as [H1|Hn1]; cbn [andb].
  - destruct sps, pps; cbn [andb];
      try (destruct (Z.eqb_spec t 6); [lia|exact Hsame]).
    exfalso. apply (Hslice i). rewrite H1 in Hnal.
    split; [done|]. split; [lia|]. split; auto.
  - destruct (Z.eqb_spec t 6) as [H6|Hn6]; [|exact Hsame].
    destruct (Z.eqb_spec r (-1)) as [->|Hne]; cbn [negb].
    + exact Hsame.
    + exfalso. apply (Hsei i r). rewrite H6 in Hnal.
      split; [done|]. split; [lia|]. split; done.
Qed.
End no_early_return.

(** C7, as the code has it.  When the scan has met a unit of each
    parameter-set type, has found no qualifying slice and has met no unit of
    type 6 with a start code after it, the selector hands over to
    [_find_position_after_sps_pps]; and when some parameter-set unit is
    followed by a unit that is not a parameter set, the offset selected is
    the start of the first such following unit -- the point right after the
    first run of parameter sets -- which is a start code within the
    buffer. *)
Theorem C7_after_first_parameter_run (data : list byte) (q : Z)
    (Hsps : scanned data 7) (Hpps : scanned data 8)
    (Hslice : forall p, ~ qualifying_slice data p)
    (Hsei : forall p r, ~ sei_with_follower data p r)
    (Hrun : first_run_end data q) :
  _find_best_insertion_point data = Ok q
  /\ 0 <= q < len data /\ sc_at data q.
Proof.
  destruct Hrun as (p & Hrun & Hfirst).
  split.
  - unfold _find_best_insertion_point.
    rewrite (insertion_loop_fallthrough data Hslice Hsei); [|unfold len; lia..|done|done| |].
    + by apply (find_position_after_first_run data p q).
    + right. destruct Hsps as (a & Ha & Hn). exists a.
      pose proof (nal_bound _ _ _ Hn). split; [lia|done].
    + right. destruct Hpps as (a & Ha & Hn). exists a.
      pose proof (nal_bound _ _ _ Hn). split; [lia|done].
  - destruct Hrun as (Hpl & Hpp & Hn & Hq & _).
    assert (0 <= p) by (destruct Hpp as [H|H]; apply nal_bound in H; lia).
    destruct Hn as [[-> _]|(Hr & Hsc & _)]; [done|]. split; [lia|done].
Qed.

Lemma C7_after_first_parameter_run_witness :
  _find_best_insertion_point video_idr = Ok 12
  /\ 0 <= 12 < len video_idr /\ sc_at video_idr 12.
Proof.
  assert (param_set video_idr 6) as Hp6.
  { right. by apply nal_by_check. }
  apply (C7_after_first_parameter_run video_idr 12).
  - exists 0. split; [by vm_compute|by apply nal_by_check].
  - exists 6. split; [by vm_compute|by apply nal_by_check].
  - intros p (Hn & _). refine (no_nal_by_check video_idr 1 _ p Hn). by vm_compute.
  - intros p r (Hn & _). refine (no_nal_by_check video_idr 6 _ p Hn). by vm_compute.
  - exists 6. split.
    + split; [by vm_compute|]. split; [done|].
      split; [by apply next_sc_of_find|]. split; [done|].
      intros [Hn|Hn]; refine (nalb_false _ _ _ _ Hn); by vm_compute.
    + intros p' q' Hlt (_ & Hps & Hn & _ & Hnp).
      destruct (decide (p' = 0)) as [->|Hne].
      * assert (next_sc video_idr (0 + 4) 6) as Hn6 by (by apply next_sc_of_find).
        by rewrite (next_sc_unique _ _ _ _ Hn Hn6) in Hnp.
      * destruct Hps as [H|H]; pose proof (nal_bound _ _ _ H).
        -- refine (nal_check video_idr 7 1 6 _ p' _ H); [by vm_compute|lia].
        -- refine (nal_check video_idr 8 1 6 _ p' _ H); [by vm_compute|lia].
Defined.

(** C7, as claimed, fails twice.  On a stream with the parameter sets and
    nothing after them the selector returns the offset of the last
    parameter set plus 100, here 105 in a buffer of 19 bytes.  On a stream
    with two groups of parameter sets it returns the end of the first
    group, 12, and not the end of the last one. *)
Lemma C7_offset_not_after_last_run :
  (scanned video_params_only 7 /\ scanned video_params_only 8
   /\ (forall p, ~ qualifying_slice video_params_only p)
   /\ (forall p r, ~ sei_with_follower video_params_only p r)
   /\ _find_best_insertion_point video_params_only = Ok 105
   /\ ~ 105 <= len video_params_only)
  /\ (scanned video_two_runs 7 /\ scanned video_two_runs 8
      /\ (forall p, ~ qualifying_slice video_two_runs p)
      /\ (forall p r, ~ sei_with_follower video_two_runs p r)
      /\ _find_best_insertion_point video_two_runs = Ok 12
      /\ ~ after_last_param_run video_two_runs 12).
Proof.
  split.
  - split; [exists 0; split; [by vm_compute|by apply nal_by_check]|].
    split; [exists 5; split; [by vm_compute|by apply nal_by_check]|].
    split.
    { intros p (Hn & _).
      refine (no_nal_by_check video_params_only 1 _ p Hn). by vm_compute. }
    split.
    { intros p r (Hn & _).
      refine (no_nal_by_check video_params_only 6 _ p Hn). by vm_compute. }
    split; [reflexivity|]. by vm_compute.
  - split; [exists 0; split; [by vm_compute|by apply nal_by_check]|].
    split; [exists 6; split; [by vm_compute|by apply nal_by_check]|].
    split.
    { intros p (Hn & _).
      refine (no_nal_by_check video_two_runs 1 _ p Hn). by vm_compute. }
    split.
    { intros p r (Hn & _).
      refine (no_nal_by_check video_two_runs 6 _ p Hn). by vm_compute. }
    split; [reflexivity|].
    intros (p & _ & Hlast & Hn).
    assert (param_set video_two_runs 26) as H26.
    { right. by apply nal_by_check. }
    apply Hlast in H26.
    destruct Hn as [[? _]|(? & _)]; lia.
Qed.

(** ** The claim on the self-contained verification *)

Lemma restored_path_not_empty base : String.eqb (base +:+ "_restored.h264") "" = false.
Proof. by destruct base. Qed.

(** Verifying a file that was just written checks the signature against the
    digest of what was written. *)
Lemma verify_video_written `{Env} self fs path content signature pk :
  sign_obj self = true -> public_key self = Some pk ->
  verify_video self (<[path := content]> fs) path signature
  = Ok (default false (gost_verify pk (streebog256 content) signature)).
Proof.
  intros Hso Hpk. unfold verify_video, hash_video_file.
  rewrite Hso, Hpk, lookup_insert_eq. cbn [bind].
  by destruct (gost_verify _ _ _).
Qed.

(** C9. The boolean that [verify_watermarked_video_self_contained] returns
    is [False] when the file cannot be read or the extractor returns no
    signature or no restored data, and otherwise the result of
    [verify_video] on the restored file and the extracted signature.  The
    expected size, [size - len(signature) - 16 - 11], goes to the printed
    lines and nowhere else. *)
Theorem C9_verdict_is_signature_check `{Env} (self : GOSTVideoSteganographer)
    (fs : files) (path : string) :
  verify_watermarked_video_self_contained self fs path
  = match fs !! path with
    | None => Ok (fs, [], false)
    | Some watermarked_data =>
        match _extract_signature_and_remove_watermark watermarked_data with
        | Ok (Some (b :: s), Some (c :: r)) =>
            let signature := b :: s in
            let restored_path := splitext_base path +:+ "_restored.h264" in
            let fs1 := <[restored_path := c :: r]> fs in
            do is_valid <- verify_video self fs1 restored_path signature;
            Ok (delete restored_path fs1,
                [ExpectedSize
                   (default 0 (len <$> fs1 !! path) - len signature - 16 - 11);
                 ActualSize (len (c :: r))],
                is_valid)
        | Ok _ => Ok (fs, [], false)
        | Raise _ => Ok (fs, [], false)
        | OutOfFuel => OutOfFuel
        end
    end.
Proof.
  unfold verify_watermarked_video_self_contained,
    extract_signature_and_restore_video, read_file.
  destruct (fs !! path) as [wm|] eqn:Hfile; [|done]. cbn [bind].
  destruct (_extract_signature_and_remove_watermark wm)
    as [[[[|b s]|] [[|c r]|]]|e|]; try done.
  cbn [bind try_except truthy negb orb].
  rewrite restored_path_not_empty.
  set (rp := splitext_base path +:+ "_restored.h264").
  destruct (verify_video self (<[rp := c :: r]> fs) rp (b :: s)) as [v|e|]; try done.
  cbn [bind]. unfold getsize. rewrite lookup_insert_eq.
  assert (is_Some (<[rp := c :: r]> fs !! path)) as [x Hx].
  { rewrite lookup_insert. case_decide; eauto. }
  rewrite Hx. cbn [bind]. rewrite bool_decide_eq_true_2 by eauto. done.
Qed.

(** On a signed stream the expected size printed is two bytes short of the
    size of the restored file, and the verdict is that of the signature. *)
Example verify_signed_stream :
  @verify_watermarked_video_self_contained sample_env sample_verifier
    {[ "video.h264"%string := video_signed ]} "video.h264"
  = Ok ({[ "video.h264"%string := video_signed ]},
        [ExpectedSize 25; ActualSize 27], true).
Proof. by vm_compute. Qed.

(** ** A stream without SEI units round-trips *)

Lemma at_pos_ext data data' i bs :
  (forall j, (j < length bs)%nat ->
     data !! (Z.to_nat i + j)%nat = data' !! (Z.to_nat i + j)%nat) ->
  at_pos data i bs -> at_pos data' i bs.
Proof.
  revert i. induction bs as [|b bs IH]; intros i Hsame H.
  - apply at_pos_nil, H.
  - apply at_pos_cons in H as (Hi & Hb & H). apply at_pos_cons.
    split; [done|]. split.
    + rewrite <- Hb. symmetry.
      specialize (Hsame 0%nat). rewrite Nat.add_0_r in Hsame.
      apply Hsame. simpl. lia.
    + apply IH; [|done]. intros j Hj.
      replace (Z.to_nat (i + 1) + j)%nat with (Z.to_nat i + S j)%nat by lia.
      apply Hsame. simpl. lia.
Qed.

(** The sufficient condition on the stream alone: when no unit of type 6
    starts in [B], nothing validates before the spliced unit, and the
    round trip is exact. *)
Lemma roundtrip_without_sei (B S : list byte) :
  length S = 64%nat -> (forall q, ~ nal B q 6) ->
  (do wm <- _embed_in_sei_messages B S;
   _extract_signature_and_remove_watermark wm)
  = Ok (Some S, Some B).
Proof.
  intros Hsig Hno.
  destruct (find_best_insertion_point_total B) as (off & Hoff & Hpos).
  pose proof (create_sei_payload_64 S Hsig) as Hsei.
  rewrite (embed_spec B S _ off Hsei Hoff Hpos). cbn [bind].
  destruct (take_drop_clamp B off Hpos) as [-> ->].
  set (k := Z.to_nat (Z.min off (len B))).
  assert (length (take k B) = k) as Hk.
  { rewrite length_take. unfold k, len. lia. }
  pose proof (sei_unit_valid (take k B) S (drop k B) Hsig) as Hv.
  rewrite (extract_first _ (len (take k B)) S); [|done|].
  { rewrite remove_sei_unit by done. by rewrite take_drop. }
  intros q s Hq [Hn _]. apply (Hno q).
  destruct Hv as [Hv _]. apply nal_sc in Hv.
  pose proof (nal_sc _ _ _ Hn) as Hqsc.
  pose proof (sc_at_apart _ _ _ Hqsc Hv ltac:(lia)) as Hap.
  destruct Hn as (h & Hat & Hty). exists h. split; [|done].
  unfold len in Hq, Hap. rewrite Hk in Hq, Hap.
  destruct (decide (q + 4 = Z.of_nat k)) as [E|Hne].
  - (* the header byte would be the first byte of the spliced start code *)
    exfalso.
    pose proof (at_pos_lookup _ _ _ 4%nat h Hat eq_refl) as Hh.
    pose proof (at_pos_lookup _ _ _ 0%nat x00 Hv eq_refl) as H0.
    unfold len in H0. rewrite Hk, Nat2Z.id in H0.
    replace (Z.to_nat q + 4)%nat with (k + 0)%nat in Hh by lia.
    rewrite H0 in Hh. injection Hh as <-. by vm_compute in Hty.
  - apply (at_pos_ext (take k B ++ sei_unit S ++ drop k B)); [|done].
    intros j Hj. simpl in Hj.
    rewrite lookup_app_l by lia. apply lookup_take_lt. lia.
Qed.


(** * More of the code *)

(** ** The selector, rule by rule *)

Lemma scanned_before_step data i t :
  ~ nal data i t -> scanned_before data t (i + 1) <-> scanned_before data t i.
Proof.
  intros Hn. split; intros (a & Ha & Hal & Hnal).
  - exists a. split; [|done]. destruct (decide (a = i)) as [->|]; [done|lia].
  - exists a. split; [lia|done].
Qed.

Lemma scanned_before_here data i t :
  nal data i t -> i + 8 < len data -> scanned_before data t (i + 1).
Proof. intros Hn Hl. exists i. split; [lia|done]. Qed.

Lemma scanned_before_next data i r t :
  sc_at data i -> next_sc data (i + 4) r -> i < r -> r < len data - 4 ->
  scanned_before data t r <-> scanned_before data t (i + 1).
Proof.
  intros Hi Hn Hir Hrl. split; intros (a & Ha & Hal & Hnal).
  - exists a. split; [|done].
    destruct (Z.lt_ge_cases a (i + 1)); [done|exfalso].
    apply (no_sc_between data i r a); [done|done|lia|right; lia|lia|].
    by eapply nal_sc.
  - exists a. split; [lia|done].
Qed.

Lemma scanned_before_all data i t :
  (forall a, i <= a -> a + 8 < len data -> ~ nal data a t) ->
  scanned_before data t i <-> scanned data t.
Proof.
  intros Hno. split.
  - intros (a & _ & Hal & Hn). by exists a.
  - intros (a & Hal & Hn). exists a. split; [|done].
    destruct (Z.lt_ge_cases a i); [done|]. exfalso. by apply (Hno a).
Qed.

Lemma scanned_before_seen data i t :
  i + 8 < len data -> scanned_before data t i <-> seen data t i.
Proof.
  intros Hl. split.
  - intros (a & Ha & _ & Hn). by exists a.
  - intros (a & Ha & Hn). exists a. split; [done|]. split; [lia|done].
Qed.

Lemma selector_event_bound data p v :
  selector_event data p v -> 0 <= p /\ p + 8 < len data /\ sc_at data p.
Proof.
  intros [[(Hn & Hl & _) _]|(Hn & Hl & _)];
    pose proof (nal_bound _ _ _ Hn); apply nal_sc in Hn; (split; [lia|done]).
Qed.

(** The loop of the selector returns at the first unit that triggers a
    rule, and otherwise runs to its end with the flags telling which
    parameter sets the scan has met. *)
Lemma insertion_loop_spec fuel data i sps pps :
  0 <= i -> len data - i < Z.of_nat fuel -> (0 < fuel)%nat ->
  (sps = true <-> scanned_before data 7 i) ->
  (pps = true <-> scanned_before data 8 i) ->
  (exists p v, i <= p /\ selector_event data p v
     /\ (forall q w, i <= q < p -> ~ selector_event data q w)
     /\ insertion_loop fuel data i sps pps = Ok v)
  \/ ((forall q w, i <= q -> ~ selector_event data q w)
      /\ exists sps' pps', (sps' = true <-> scanned data 7)
           /\ (pps' = true <-> scanned data 8)
           /\ insertion_loop fuel data i sps pps
              = insertion_fallback data sps' pps').
Proof.
  revert i sps pps.
  induction fuel as [|fuel IH]; intros i sps pps Hi Hfuel Hpos Hsps Hpps; [lia|].
  simpl. destruct (Z.ltb_spec i (len data - 8)) as [Hlt|Hge].
  2:{ right. split.
      - intros q w Hq Hev. apply selector_event_bound in Hev. lia.
      - exists sps, pps. split; [|split; [|done]].
        + rewrite Hsps. apply scanned_before_all. intros a Ha Hal. lia.
        + rewrite Hpps. apply scanned_before_all. intros a Ha Hal. lia. }
  rewrite is_start_code_spec by lia. cbn [bind].
  case_bool_decide as Hsc; cycle 1.
  { assert (forall t, ~ nal data i t) as Hni.
    { intros t Hn. by apply nal_sc in Hn. }
    assert (forall w, ~ selector_event data i w) as Hnev.
    { intros w Hev. by apply selector_event_bound in Hev as (_ & _ & Hx). }
    destruct (IH (i + 1) sps pps) as [(p & v & Hp & Hev & Hnone & E)|(Hnone & Hfl)];
      [lia|lia|lia| | | |].
    - rewrite Hsps. symmetry. by apply scanned_before_step.
    - rewrite Hpps. symmetry. by apply scanned_before_step.
    - left. exists p, v. split; [lia|]. split; [done|]. split; [|done].
      intros q w Hq. destruct (decide (q = i)) as [->|]; [done|]. apply Hnone. lia.
    - right. split; [|done].
      intros q w Hq. destruct (decide (q = i)) as [->|]; [done|]. apply Hnone. lia. }
  destruct (getitem_in_range data (i + 4)) as (h & Hh & ->); [lia|]. cbn [bind].
  pose proof (nal_intro _ _ _ Hsc Hh) as Hnal.
  set (t := Z.land (byte_val h) 31) in *.
  destruct (find_next_spec data (i + 4)) as (r & -> & Hn); [lia|]. cbn [bind].
  assert (forall q, i < q -> r = -1 \/ q < r -> q + 8 < len data -> ~ sc_at data q)
    as Hgap.
  { intros q Hq Hqr Hql. apply (no_sc_between data i r q); [done|done|lia|done|lia]. }
  assert (forall sps' pps', (forall w, ~ selector_event data i w) ->
    (sps' = true <-> scanned_before data 7 (i + 1)) ->
    (pps' = true <-> scanned_before data 8 (i + 1)) ->
    (exists p v, i <= p /\ selector_event data p v
       /\ (forall q w, i <= q < p -> ~ selector_event data q w)
       /\ (if r =? -1 then insertion_fallback data sps' pps'
           else insertion_loop fuel data r sps' pps') = Ok v)
    \/ ((forall q w, i <= q -> ~ selector_event data q w)
        /\ exists s2 p2, (s2 = true <-> scanned data 7)
             /\ (p2 = true <-> scanned data 8)
             /\ (if r =? -1 then insertion_fallback data sps' pps'
                 else insertion_loop fuel data r sps' pps')
                = insertion_fallback data s2 p2)) as Hnext.
  { intros sps' pps' Hnev Hsps' Hpps'.
    assert (forall q w, i <= q -> r = -1 \/ q < r -> ~ selector_event data q w) as Hskip.
    { intros q w Hq Hqr Hev. destruct (decide (q = i)) as [->|]; [by eapply Hnev|].
      apply selector_event_bound in Hev as (_ & Hql & Hqsc).
      apply (Hgap q); [lia|done|done|done]. }
    destruct (next_sc_range _ _ _ Hn) as [->|Hr].
    - right. split; [intros q w Hq; apply Hskip; [lia|by left]|].
      exists sps', pps'. cbn. split; [|split; [|done]].
      + rewrite Hsps'. apply scanned_before_all. intros a Ha Hal Hna.
        apply (Hgap a); [lia|by left|done|by eapply nal_sc].
      + rewrite Hpps'. apply scanned_before_all. intros a Ha Hal Hna.
        apply (Hgap a); [lia|by left|done|by eapply nal_sc].
    - destruct (Z.eqb_spec r (-1)); [lia|].
      destruct (IH r sps' pps') as [(p & v & Hp & Hev & Hnone & E)|(Hnone & Hfl)];
        [lia|lia|lia| | | |].
      + rewrite Hsps'. symmetry. apply (scanned_before_next data i r); [done|done|lia|lia].
      + rewrite Hpps'. symmetry. apply (scanned_before_next data i r); [done|done|lia|lia].
      + left. exists p, v. split; [lia|]. split; [done|]. split; [|done].
        intros q w Hq. destruct (Z.lt_ge_cases q r).
        * apply Hskip; [lia|by right].
        * apply Hnone. lia.
      + right. split; [|done].
        intros q w Hq. destruct (Z.lt_ge_cases q r).
        * apply Hskip; [lia|by right].
        * apply Hnone. lia. }
  assert (forall t', t <> t' -> ~ nal data i t') as Hother.
  { intros t' Hne Hn'. apply Hne. by eapply nal_type_unique. }
  assert (forall t', t <> t' ->
            scanned_before data t' (i + 1) <-> scanned_before data t' i) as Hstep.
  { intros t' Hne. apply scanned_before_step. by apply Hother. }
  assert (t <> 1 -> t <> 6 -> forall w, ~ selector_event data i w) as Hplain.
  { intros H1 H6 w [[(Hx & _) _]|(Hx & _)];
      [exact (Hother 1 H1 Hx)|exact (Hother 6 H6 Hx)]. }
  destruct (Z.eqb_spec t 7) as [H7|Hn7].
  { apply Hnext; [apply Hplain; lia| |].
    - split; [intros _|done]. rewrite H7 in Hnal. apply scanned_before_here; [done|lia].
    - rewrite Hpps. symmetry. apply Hstep. lia. }
  destruct (Z.eqb_spec t 8) as [H8|Hn8].
  { apply Hnext; [apply Hplain; lia| |].
    - rewrite Hsps. symmetry. apply Hstep. lia.
    - split; [intros _|done]. rewrite H8 in Hnal. apply scanned_before_here; [done|lia]. }
  assert (scanned_before data 7 (i + 1) <-> sps = true) as Hs7.
  { rewrite Hsps. apply Hstep. lia. }
  assert (scanned_before data 8 (i + 1) <-> pps = true) as Hs8.
  { rewrite Hpps. apply Hstep. lia. }
  destruct (Z.eqb_spec t 1) as [H1|Hn1]; cbn [andb].
  - assert (qualifying_slice data i <-> sps = true /\ pps = true) as Hq.
    { rewrite Hsps, Hpps, !scanned_before_seen by lia. unfold qualifying_slice.
      rewrite H1 in Hnal. split; [tauto|]. intros [? ?]. split; [done|]. split; [lia|done]. }
    destruct sps, pps; cbn [andb].
    + left. exists i, i. split; [lia|]. split; [left; split; [by apply Hq|done]|].
      split; [intros q w Hqi; lia|done].
    + destruct (Z.eqb_spec t 6); [lia|]. apply Hnext; [|by symmetry|by symmetry].
      intros w [[Hx _]|(Hx & _)];
        [apply Hq in Hx as [_ Hx]; done|apply (Hother 6); [lia|done]].
    + destruct (Z.eqb_spec t 6); [lia|]. apply Hnext; [|by symmetry|by symmetry].
      intros w [[Hx _]|(Hx & _)];
        [apply Hq in Hx as [Hx _]; done|apply (Hother 6); [lia|done]].
    + destruct (Z.eqb_spec t 6); [lia|]. apply Hnext; [|by symmetry|by symmetry].
      intros w [[Hx _]|(Hx & _)];
        [apply Hq in Hx as [Hx _]; done|apply (Hother 6); [lia|done]].
  - destruct (Z.eqb_spec t 6) as [H6|Hn6].
    + rewrite H6 in Hnal.
      destruct (Z.eqb_spec r (-1)) as [Hr|Hr]; cbn [negb].
      * apply Hnext; [|by symmetry|by symmetry].
        intros w [[(Hx & _) _]|(_ & _ & Hx & Hw)]; [apply (Hother 1); [lia|done]|].
        apply Hw. rewrite <- Hr. by eapply next_sc_unique.
      * left. exists i, r. split; [lia|]. split; [right; split; [done|]; split; [lia|done]|].
        split; [intros q w Hqi; lia|done].
    + apply Hnext; [by apply Hplain|by symmetry|by symmetry].
Qed.

Lemma find_best_insertion_point_spec data :
  (exists p v, selector_event data p v
     /\ (forall q w, q < p -> ~ selector_event data q w)
     /\ _find_best_insertion_point data = Ok v)
  \/ ((forall q w, ~ selector_event data q w)
      /\ exists sps pps, (sps = true <-> scanned data 7)
           /\ (pps = true <-> scanned data 8)
           /\ _find_best_insertion_point data = insertion_fallback data sps pps).
Proof.
  assert (forall t, false = true <-> scanned_before data t 0) as Hinit.
  { intros t. split; [done|]. intros (a & Ha & _ & Hn). apply nal_bound in Hn. lia. }
  destruct (insertion_loop_spec (S (length data)) data 0 false false)
    as [(p & v & Hp & Hev & Hnone & E)|(Hnone & Hfl)];
    [lia|unfold len; lia|lia|apply Hinit|apply Hinit| |].
  - left. exists p, v. split; [done|]. split; [|done].
    intros q w Hq Hx. pose proof (selector_event_bound _ _ _ Hx).
    apply (Hnone q w); [lia|done].
  - right. split; [|done]. intros q w Hx.
    pose proof (selector_event_bound _ _ _ Hx). apply (Hnone q w); [lia|done].
Qed.

Lemma param_set_bound data p : param_set data p -> 0 <= p /\ sc_at data p.
Proof.
  intros [H|H]; pose proof (nal_bound _ _ _ H); apply nal_sc in H; (split; [lia|done]).
Qed.

Lemma run_end_unique data p q q' : run_end data p q -> run_end data p q' -> q = q'.
Proof. intros (_ & _ & H & _) (_ & _ & H' & _). by eapply next_sc_unique. Qed.

(** [_find_position_after_sps_pps], completely: the end of the first run
    of parameter sets when there is one, and otherwise 100 past the last
    parameter set the scan meets (past [last] when it meets none). *)
Lemma after_sps_pps_loop_spec fuel data i last :
  0 <= i -> len data - i < Z.of_nat fuel -> (0 < fuel)%nat ->
  (exists p q, i <= p /\ run_end data p q
     /\ (forall p' q', i <= p' < p -> ~ run_end data p' q')
     /\ after_sps_pps_loop fuel data i last = Ok q)
  \/ ((forall p q, i <= p -> ~ run_end data p q)
      /\ exists L, after_sps_pps_loop fuel data i last = Ok (L + 100)
           /\ ((L = last /\ forall p, i <= p -> p + 8 < len data -> ~ param_set data p)
               \/ (i <= L /\ param_set data L /\ L + 8 < len data
                   /\ forall p, i <= p -> param_set data p -> p + 8 < len data -> p <= L))).
Proof.
  revert i last.
  induction fuel as [|fuel IH]; intros i last Hi Hfuel Hpos; [lia|].
  simpl. destruct (Z.ltb_spec i (len data - 8)) as [Hlt|Hge].
  2:{ right. split; [intros p q Hp (Hx & _); lia|].
      exists last. split; [done|]. left. split; [done|]. intros p Hp Hl. lia. }
  rewrite is_start_code_spec by lia. cbn [bind].
  case_bool_decide as Hsc; cycle 1.
  { assert (~ param_set data i) as Hni.
    { intros Hx. by apply param_set_bound in Hx as [_ Hx]. }
    destruct (IH (i + 1) last) as [(p & q & Hp & Hrun & Hnone & E)|(Hnone & L & E & HL)];
      [lia..| |].
    - left. exists p, q. split; [lia|]. split; [done|]. split; [|done].
      intros p' q' Hp' Hx. destruct (decide (p' = i)) as [->|].
      + by destruct Hx as (_ & Hx & _).
      + apply (Hnone p' q'); [lia|done].
    - right. split.
      { intros p q Hp Hx. destruct (decide (p = i)) as [->|].
        - by destruct Hx as (_ & Hx & _).
        - apply (Hnone p q); [lia|done]. }
      exists L. split; [done|].
      destruct HL as [[-> HL]|(HiL & HpL & HlL & HL)].
      + left. split; [done|]. intros p Hp Hl.
        destruct (decide (p = i)) as [->|]; [done|]. apply HL; lia.
      + right. split; [lia|]. split; [done|]. split; [done|]. intros p Hp Hps Hl.
        destruct (decide (p = i)) as [->|]; [done|]. apply HL; [lia|done|done]. }
  (* after a start code the loop goes on at [i + 4]; nothing starts between *)
  assert (forall p, i < p < i + 4 -> ~ param_set data p) as Hgap.
  { intros p Hp Hx. apply param_set_bound in Hx as [_ Hx].
    pose proof (sc_at_apart _ _ _ Hsc Hx ltac:(lia)). lia. }
  assert (forall last', (forall q, ~ run_end data i q) ->
    (last' = i /\ param_set data i \/ last' = last /\ ~ param_set data i) ->
    (exists p q, i <= p /\ run_end data p q
       /\ (forall p' q', i <= p' < p -> ~ run_end data p' q')
       /\ after_sps_pps_loop fuel data (i + 4) last' = Ok q)
    \/ ((forall p q, i <= p -> ~ run_end data p q)
        /\ exists L, after_sps_pps_loop fuel data (i + 4) last' = Ok (L + 100)
             /\ ((L = last /\ forall p, i <= p -> p + 8 < len data -> ~ param_set data p)
                 \/ (i <= L /\ param_set data L /\ L + 8 < len data
                     /\ forall p, i <= p -> param_set data p -> p + 8 < len data
                          -> p <= L)))) as Hnext.
  { intros last' Hnr Hlast'.
    assert (forall p q, i <= p < i + 4 -> ~ run_end data p q) as Hnr'.
    { intros p q Hp Hx. destruct (decide (p = i)) as [->|]; [by eapply Hnr|].
      destruct Hx as (_ & Hx & _). apply (Hgap p); [lia|done]. }
    destruct (IH (i + 4) last') as [(p & q & Hp & Hrun & Hnone & E)|(Hnone & L & E & HL)];
      [lia..| |].
    - left. exists p, q. split; [lia|]. split; [done|]. split; [|done].
      intros p' q' Hp' Hx. destruct (Z.lt_ge_cases p' (i + 4)).
      + apply (Hnr' p' q'); [lia|done].
      + apply (Hnone p' q'); [lia|done].
    - right. split.
      { intros p q Hp Hx. destruct (Z.lt_ge_cases p (i + 4)).
        - apply (Hnr' p q); [lia|done].
        - apply (Hnone p q); [lia|done]. }
      exists L. split; [done|].
      destruct HL as [[-> HL]|(HiL & HpL & HlL & HL)].
      + destruct Hlast' as [[-> Hpi]|[-> Hnpi]].
        * right. split; [lia|]. split; [done|]. split; [lia|]. intros p Hp Hps Hl.
          destruct (Z.lt_ge_cases p (i + 4)) as [Hp4|Hp4].
          -- destruct (decide (p = i)) as [->|]; [lia|].
             exfalso. apply (Hgap p); [lia|done].
          -- exfalso. by apply (HL p).
        * left. split; [done|]. intros p Hp Hl Hps.
          destruct (Z.lt_ge_cases p (i + 4)) as [Hp4|Hp4].
          -- destruct (decide (p = i)) as [->|]; [done|]. apply (Hgap p); [lia|done].
          -- by apply (HL p).
      + right. split; [lia|]. split; [done|]. split; [done|]. intros p Hp Hps Hl.
        destruct (Z.lt_ge_cases p (i + 4)) as [Hp4|Hp4].
        * destruct (decide (p = i)) as [->|]; [lia|].
          exfalso. apply (Hgap p); [lia|done].
        * apply HL; [lia|done|done]. }
  destruct (getitem_in_range data (i + 4)) as (h & Hh & ->); [lia|]. cbn [bind].
  pose proof (nal_intro _ _ _ Hsc Hh) as Hnal.
  set (t := Z.land (byte_val h) 31) in *.
  assert ((t =? 7) || (t =? 8) = true <-> param_set data i) as Hparam.
  { rewrite orb_true_iff, !Z.eqb_eq. unfold param_set. split.
    - intros [<-|<-]; auto.
    - intros [Hx|Hx]; [left|right]; by eapply nal_type_unique. }
  destruct ((t =? 7) || (t =? 8)); cycle 1.
  { assert (~ param_set data i) as Hnp by (intros Hx; by apply Hparam in Hx).
    apply Hnext; [|by right]. intros q (_ & Hx & _). done. }
  assert (param_set data i) as Hpi by (by apply Hparam).
  destruct (find_next_spec data (i + 4)) as (r & -> & Hn); [lia|]. cbn [bind].
  destruct (next_sc_range _ _ _ Hn) as [->|Hr].
  { apply Hnext; [|by left]. intros q (_ & _ & Hx & Hq & _).
    apply Hq. by eapply next_sc_unique. }
  destruct (Z.eqb_spec r (-1)); [lia|]. cbn [negb].
  destruct (getitem_in_range data (r + 4)) as (h' & Hh' & ->); [lia|]. cbn [bind].
  assert (sc_at data r) as Hrsc.
  { destruct Hn as [[-> _]|(_ & Hx & _)]; [lia|done]. }
  pose proof (nal_intro _ _ _ Hrsc Hh') as Hnal'.
  set (t' := Z.land (byte_val h') 31) in *.
  assert (negb (t' =? 7) && negb (t' =? 8) = true <-> ~ param_set data r) as Hparam'.
  { rewrite andb_true_iff, !negb_true_iff, !Z.eqb_neq. unfold param_set. split.
    - intros [H7 H8] [Hx|Hx]; [apply H7|apply H8]; by eapply nal_type_unique.
    - intros Hx. split; intros E; apply Hx; rewrite <- E; auto. }
  destruct (negb (t' =? 7) && negb (t' =? 8)).
  - left. exists i, r. split; [lia|]. split.
    + split; [lia|]. split; [done|]. split; [done|]. split; [lia|]. by apply Hparam'.
    + split; [intros p' q' Hp'; lia|done].
  - apply Hnext; [|by left]. intros q (_ & _ & Hx & _ & Hq).
    rewrite (next_sc_unique _ _ _ _ Hx Hn) in Hq. by apply Hparam' in Hq.
Qed.


(** [_find_next_start_code] returns the first start code at or after
    [start_pos] that begins more than four bytes before the end of the
    buffer, and [-1] when there is none; it never reads outside the
    buffer. *)
Theorem find_next_start_code_is_first (data : list byte) (start_pos : Z)
    (Hs : 0 <= start_pos) :
  exists r, _find_next_start_code data start_pos = Ok r
    /\ (r = -1 \/ (start_pos <= r < len data - 4 /\ sc_at data r))
    /\ forall q, start_pos <= q < len data - 4 -> sc_at data q ->
         start_pos <= r <= q.
Proof.
  destruct (find_next_spec data start_pos Hs) as (r & E & Hn).
  exists r. split; [done|].
  destruct Hn as [[-> Hn]|(Hr & Hsc & Hn)].
  - split; [by left|]. intros q Hq Hx. exfalso. by apply (Hn q).
  - split; [right; done|]. intros q Hq Hx.
    destruct (Z.le_gt_cases r q); [lia|]. exfalso. apply (Hn q); [lia|done].
Qed.

(** A start code in the last four bytes is not found; one before it is. *)
Lemma find_next_start_code_is_first_witness :
  _find_next_start_code [x00; x00; x00; x01] 0 = Ok (-1)
  /\ _find_next_start_code [xaa; x00; x00; x00; x01; x41] 0 = Ok 1.
Proof.
  split.
  - destruct (find_next_start_code_is_first [x00; x00; x00; x01] 0 ltac:(lia))
      as (r & E & [->|[Hr _]] & _); [exact E|unfold len in Hr; simpl in Hr; lia].
  - destruct (find_next_start_code_is_first [xaa; x00; x00; x00; x01; x41] 0 ltac:(lia))
      as (r & E & _ & Hfirst).
    assert (0 <= r <= 1) as Hr.
    { apply Hfirst; [by vm_compute|]. split; [lia|reflexivity]. }
    rewrite E. vm_compute in E. congruence.
Defined.

(** Rule of the existing SEI unit.  When the scan meets a unit of type 6
    that has a start code after it, with no qualifying slice and no other
    unit of type 6 before it, the selector returns that next start code,
    which lies within the buffer. *)
Theorem selector_after_sei_unit (data : list byte) (p r : Z)
    (Hsei : sei_with_follower data p r)
    (Hslice : forall q, q < p -> ~ qualifying_slice data q)
    (Hfirst : forall q, q < p -> ~ nal data q 6) :
  _find_best_insertion_point data = Ok r
  /\ p + 4 <= r < len data - 4 /\ sc_at data r.
Proof.
  pose proof Hsei as (Hn6 & Hl & Hnext & Hr).
  split.
  - destruct (find_best_insertion_point_spec data)
      as [(p' & v & Hev & Hnone & ->)|(Hnone & _)].
    + f_equal.
      assert (p' = p) as ->.
      { destruct (Z.lt_trichotomy p' p) as [Hlt|[->|Hgt]]; [exfalso|done|exfalso].
        - destruct Hev as [[Hx _]|(Hx & _)]; [by apply (Hslice p')|by apply (Hfirst p')].
        - apply (Hnone p r Hgt). by right. }
      destruct Hev as [[(Hx & _) _]|(_ & _ & Hx & _)].
      * pose proof (nal_type_unique _ _ _ _ Hx Hn6). lia.
      * by eapply next_sc_unique.
    + exfalso. apply (Hnone p r). by right.
  - destruct Hnext as [[-> _]|(Hrr & Hsc & _)]; [done|]. split; [lia|done].
Qed.

Lemma selector_after_sei_unit_witness :
  _find_best_insertion_point video_sei_first = Ok 6
  /\ 0 + 4 <= 6 < len video_sei_first - 4 /\ sc_at video_sei_first 6.
Proof.
  apply (selector_after_sei_unit video_sei_first 0 6).
  - split; [by apply nal_by_check|]. split; [by vm_compute|].
    split; [by apply next_sc_of_find|done].
  - intros q Hq (Hn & _). apply nal_bound in Hn. lia.
  - intros q Hq Hn. apply nal_bound in Hn. lia.
Defined.

(** The default.  When the scan has not met both parameter-set types and
    has met no unit of type 6 with a start code after it, the selector
    returns 0: the unit goes to the head of the stream.  This is the case of
    the empty buffer. *)
Theorem selector_defaults_to_zero (data : list byte)
    (Hparams : ~ (scanned data 7 /\ scanned data 8))
    (Hsei : forall p r, ~ sei_with_follower data p r) :
  _find_best_insertion_point data = Ok 0.
Proof.
  destruct (find_best_insertion_point_spec data)
    as [(p & v & Hev & _)|(_ & sps & pps & Hs & Hp & ->)].
  - exfalso. destruct Hev as [[(Hn & Hl & (a & Ha & H7) & (b & Hb & H8)) _]|Hx].
    + apply Hparams. split; [exists a|exists b]; (split; [lia|done]).
    + by eapply Hsei.
  - unfold insertion_fallback. destruct sps, pps; try done.
    exfalso. apply Hparams. split; [by apply Hs|by apply Hp].
Qed.

Lemma selector_defaults_to_zero_witness :
  _find_best_insertion_point [] = Ok 0
  /\ _find_best_insertion_point video_sps_only = Ok 0.
Proof.
  split.
  - apply (selector_defaults_to_zero []).
    + intros [(a & Ha & Hn) _]. apply nal_bound in Hn. unfold len in *. simpl in *. lia.
    + intros p r (Hn & Hl & _). apply nal_bound in Hn. unfold len in *. simpl in *. lia.
  - apply (selector_defaults_to_zero video_sps_only).
    + intros [_ (a & Ha & Hn)].
      refine (no_nal_by_check video_sps_only 8 _ a Hn). by vm_compute.
    + intros p r (Hn & _).
      refine (no_nal_by_check video_sps_only 6 _ p Hn). by vm_compute.
Defined.

Lemma find_position_after_sps_pps_spec data :
  (exists p q, run_end data p q
     /\ (forall p' q', p' < p -> ~ run_end data p' q')
     /\ _find_position_after_sps_pps data = Ok q)
  \/ ((forall p q, ~ run_end data p q)
      /\ exists L, _find_position_after_sps_pps data = Ok (L + 100)
           /\ ((L = 0 /\ forall p, p + 8 < len data -> ~ param_set data p)
               \/ last_scanned_param data L)).
Proof.
  destruct (after_sps_pps_loop_spec (S (length data)) data 0 0)
    as [(p & q & Hp & Hrun & Hnone & E)|(Hnone & L & E & HL)];
    [lia|unfold len; lia|lia| |].
  - left. exists p, q. split; [done|]. split; [|done].
    intros p' q' Hlt Hx. pose proof Hx as (_ & Hps & _).
    apply param_set_bound in Hps as [Hp0 _]. apply (Hnone p' q'); [lia|done].
  - right. split.
    { intros p q Hx. pose proof Hx as (_ & Hps & _).
      apply param_set_bound in Hps as [Hp0 _]. by apply (Hnone p q). }
    exists L. split; [done|].
    destruct HL as [[-> HL]|(HiL & HpL & HlL & HL)].
    + left. split; [done|]. intros p Hl Hps.
      pose proof (param_set_bound _ _ Hps) as [Hp0 _]. by apply (HL p).
    + right. split; [done|]. split; [done|]. intros p Hps Hl.
      pose proof (param_set_bound _ _ Hps) as [Hp0 _]. by apply HL.
Qed.

Lemma scanned_param_set data t :
  t = 7 \/ t = 8 -> scanned data t -> exists a, a + 8 < len data /\ param_set data a.
Proof.
  intros Ht (a & Ha & Hn). exists a. split; [done|].
  destruct Ht as [-> | ->]; [by left|by right].
Qed.

(** The last resort after the parameter sets.  When the scan has met both
    parameter-set types and no rule of the loop applies, and no parameter
    set is followed by a unit of another type, the selector returns the
    offset of the last parameter set it met plus 100, whatever the length
    of the buffer. *)
Theorem selector_past_last_parameter_set (data : list byte)
    (Hsps : scanned data 7) (Hpps : scanned data 8)
    (Hloop : forall p v, ~ selector_event data p v)
    (Hrun : forall p q, ~ run_end data p q) :
  exists L, last_scanned_param data L
    /\ _find_best_insertion_point data = Ok (L + 100).
Proof.
  destruct (find_best_insertion_point_spec data)
    as [(p & v & Hev & _)|(_ & sps & pps & Hs & Hp & ->)]; [by apply Hloop in Hev|].
  apply Hs in Hsps as ->. apply Hp in Hpps as Hpp. rewrite Hpp. cbn.
  destruct (find_position_after_sps_pps_spec data)
    as [(p & q & Hx & _)|(_ & L & E & HL)]; [by apply Hrun in Hx|].
  exists L. split; [|done].
  destruct HL as [[_ Hnone]|]; [|done]. exfalso.
  apply Hp in Hpp. apply (scanned_param_set data 8) in Hpp as (a & Ha & Hps); [|by right].
  by apply (Hnone a).
Qed.

Lemma selector_past_last_parameter_set_witness :
  exists L, last_scanned_param video_params_only L
    /\ _find_best_insertion_point video_params_only = Ok (L + 100).
Proof.
  apply (selector_past_last_parameter_set video_params_only).
  - exists 0. split; [by vm_compute|by apply nal_by_check].
  - exists 5. split; [by vm_compute|by apply nal_by_check].
  - intros p v [[(Hn & _) _]|(Hn & _)].
    + refine (no_nal_by_check video_params_only 1 _ p Hn). by vm_compute.
    + refine (no_nal_by_check video_params_only 6 _ p Hn). by vm_compute.
  - intros p q (Hl & Hps & Hn & Hq & Hnp).
    pose proof (param_set_bound _ _ Hps) as [Hp0 _].
    assert (p = 0 \/ p = 5 \/ (p <> 0 /\ p <> 5)) as [->|[->|[H0 H5]]] by lia.
    + assert (next_sc video_params_only (0 + 4) 5) as Hn5 by (by apply next_sc_of_find).
      rewrite (next_sc_unique _ _ _ _ Hn Hn5) in Hnp.
      apply Hnp. right. by apply nal_by_check.
    + assert (next_sc video_params_only (5 + 4) (-1)) as Hn1 by (by apply next_sc_of_find).
      by rewrite (next_sc_unique _ _ _ _ Hn Hn1) in Hq.
    + unfold len in Hl. simpl in Hl.
      assert (1 <= p < 5 \/ 6 <= p < 11) as [Hr|Hr] by lia.
      * destruct Hps as [Hx|Hx].
        -- refine (nal_check video_params_only 7 1 5 _ p _ Hx); [by vm_compute|lia].
        -- refine (nal_check video_params_only 8 1 5 _ p _ Hx); [by vm_compute|lia].
      * destruct Hps as [Hx|Hx].
        -- refine (nal_check video_params_only 7 6 11 _ p _ Hx); [by vm_compute|lia].
        -- refine (nal_check video_params_only 8 6 11 _ p _ Hx); [by vm_compute|lia].
Defined.

(** Where the unit can go.  The selector never raises and never returns
    [-1]: the offset is 0, or a start code of the buffer, or 100 past the
    last parameter set the scan met. *)
Theorem selector_offset_kinds (data : list byte) :
  exists off, _find_best_insertion_point data = Ok off
    /\ (off = 0
        \/ (4 <= off < len data - 4 /\ sc_at data off)
        \/ exists L, last_scanned_param data L /\ off = L + 100).
Proof.
  destruct (find_best_insertion_point_spec data)
    as [(p & v & Hev & _ & ->)|(_ & sps & pps & Hs & Hp & ->)].
  - exists v. split; [done|]. right. left.
    destruct Hev as [[(Hn & Hl & (a & Ha & H7) & _) ->]|(Hn & Hl & Hnext & Hr)].
    + pose proof (nal_bound _ _ _ H7) as [Ha0 _].
      apply nal_sc in H7. apply nal_sc in Hn.
      pose proof (sc_at_apart _ _ _ H7 Hn Ha). split; [lia|done].
    + pose proof (nal_bound _ _ _ Hn) as [Hp0 _].
      destruct Hnext as [[-> _]|(Hrr & Hsc & _)]; [done|]. split; [lia|done].
  - unfold insertion_fallback. destruct (sps && pps) eqn:Hboth; [|by exists 0; auto].
    apply andb_true_iff in Hboth as [-> ->].
    destruct (find_position_after_sps_pps_spec data)
      as [(p & q & Hrun & _ & ->)|(_ & L & -> & HL)].
    + exists q. split; [done|]. right. left.
      destruct Hrun as (_ & Hps & Hnext & Hq & _).
      pose proof (param_set_bound _ _ Hps) as [Hp0 _].
      destruct Hnext as [[-> _]|(Hrr & Hsc & _)]; [done|]. split; [lia|done].
    + exists (L + 100). split; [done|]. right. right. exists L. split; [|done].
      destruct HL as [[_ Hnone]|]; [|done]. exfalso.
      assert (scanned data 7) as Hsc by (by apply Hs).
      apply (scanned_param_set data 7) in Hsc as (a & Ha & Hps); [|by left].
      by apply (Hnone a).
Qed.

(** ** The reader and the extractor at their edges *)

(** The reader never raises, and it decides one thing: it returns the
    signature and the length 89 exactly when the payload type 5, the size
    81, the tag and 64 more bytes stand five bytes after [start_pos], and
    [(None, 0)] otherwise.  The start code and the header byte play no
    part. *)
Theorem reader_accepts_exactly_unit_fields (data : list byte) (start_pos : Z)
    (Hp : 0 <= start_pos) :
  (forall sig,
     _parse_sei_and_get_length data start_pos = Ok (Some sig, 89)
     <-> unit_at data start_pos sig)
  /\ ((forall sig, ~ unit_at data start_pos sig) ->
      _parse_sei_and_get_length data start_pos = Ok (None, 0))
  /\ exists o n, _parse_sei_and_get_length data start_pos = Ok (o, n)
       /\ (n = 0 \/ n = 89).
Proof.
  split; [|split].
  - intros sig. split; [|by apply parse_unit].
    intros E. destruct (parse_cases data start_pos Hp) as [E'|(sig' & E' & Hu)];
      rewrite E' in E; by simplify_eq.
  - intros Hno. destruct (parse_cases data start_pos Hp) as [E|(sig & _ & Hu)]; [done|].
    by apply Hno in Hu.
  - destruct (parse_cases data start_pos Hp) as [E|(sig & E & _)].
    + exists None, 0. auto.
    + exists (Some sig), 89. auto.
Qed.

Lemma reader_accepts_exactly_unit_fields_witness :
  _parse_sei_and_get_length (xaa :: xbb :: sei_unit sig_ab) 2 = Ok (Some sig_ab, 89)
  /\ _parse_sei_and_get_length (xaa :: xbb :: sei_unit sig_ab) 3 = Ok (None, 0).
Proof.
  destruct (reader_accepts_exactly_unit_fields (xaa :: xbb :: sei_unit sig_ab) 2
              ltac:(lia)) as (Hiff & _).
  destruct (reader_accepts_exactly_unit_fields (xaa :: xbb :: sei_unit sig_ab) 3
              ltac:(lia)) as (_ & Hno & _).
  split.
  - apply Hiff. split; [|done]. split; [lia|reflexivity].
  - apply Hno. intros sig [Hu _].
    apply at_pos_cons in Hu as (_ & Hb & _). by vm_compute in Hb.
Defined.

(** The writer and the reader disagree on signatures of another length:
    the writer builds a unit for any signature, and for one that is not 64
    bytes long the reader rejects that unit wherever it stands. *)
Theorem wrong_length_unit_rejected (pre post S : list byte)
    (Hlen : length S <> 64%nat) :
  exists sei, _create_sei_payload S = Ok sei
    /\ _parse_sei_and_get_length (pre ++ sei ++ post) (len pre) = Ok (None, 0).
Proof.
  destruct (create_sei_payload_any S) as (k & b & Hk & Hb & Hsei).
  eexists. split; [exact Hsei|].
  pose proof (len_nonneg pre) as Hpre.
  destruct (parse_cases (pre ++ (start_code ++ [x06; x05] ++ (replicate k xff ++ [b])
                           ++ (uuid ++ S) ++ [x80]) ++ post) (len pre) Hpre)
    as [E|(sig & _ & Hu & _)]; [done|exfalso].
  change ([x05; x51] ++ uuid ++ sig) with ([x05] ++ [x51] ++ uuid ++ sig) in Hu.
  apply at_pos_app in Hu as [_ Hu]. apply at_pos_app in Hu as [H51 _].
  change (len [x05]) with 1 in H51.
  apply at_pos_cons in H51 as (_ & H51 & _).
  pose proof (at_pos_middle pre
    (start_code ++ [x06; x05] ++ (replicate k xff ++ [b]) ++ (uuid ++ S) ++ [x80]) post)
    as Hat.
  change (start_code ++ [x06; x05] ++ (replicate k xff ++ [b]) ++ (uuid ++ S) ++ [x80])
    with ((start_code ++ [x06; x05]) ++ (replicate k xff ++ [b]) ++ (uuid ++ S) ++ [x80])
    in Hat at 2.
  apply at_pos_app in Hat as [_ Hat]. apply at_pos_app in Hat as [Hfield _].
  change (len (start_code ++ [x06; x05])) with 6 in Hfield.
  replace (len pre + 5 + 1) with (len pre + 6) in H51 by lia.
  pose proof (len_nonneg S) as HS.
  destruct k as [|k].
  - change (replicate 0 xff ++ [b]) with [b] in Hfield.
    apply at_pos_cons in Hfield as (_ & Hb' & _).
    assert (Some b = Some x51) as E by exact (eq_trans (eq_sym Hb') H51).
    injection E as ->.
    change (byte_val x51) with 81 in Hb. unfold len in *. lia.
  - change (replicate (Datatypes.S k) xff ++ [b])
      with (xff :: (replicate k xff ++ [b])) in Hfield.
    apply at_pos_cons in Hfield as (_ & Hb' & _).
    assert (Some xff = Some x51) as E by exact (eq_trans (eq_sym Hb') H51).
    discriminate E.
Qed.

Lemma wrong_length_unit_rejected_witness :
  exists sei, _create_sei_payload [x01; x02] = Ok sei
    /\ _parse_sei_and_get_length ([xaa] ++ sei ++ [xbb]) (len [xaa]) = Ok (None, 0).
Proof. apply (wrong_length_unit_rejected [xaa] [xbb] [x01; x02]). simpl. lia. Defined.

(** What the extractor hands back.  It never raises; it returns either
    [(None, None)] or a signature together with restored data, never one
    without the other; the signature is 64 bytes long and the restored
    data is 89 bytes shorter than the buffer -- 88 when the unit ends the
    buffer with no byte after its payload. *)
Theorem extractor_result_shape (data : list byte) :
  exists r, _extract_signature_and_remove_watermark data = Ok r
    /\ (r = (None, None)
        \/ exists sig restored, r = (Some sig, Some restored)
             /\ length sig = 64%nat
             /\ (len restored = len data - 89 \/ len restored = len data - 88)).
Proof.
  destruct (extract_spec data) as [(p & sig & Hv & _ & ->)|[_ ->]]; [|eauto].
  eexists. split; [done|]. right. eexists _, _. split; [done|].
  pose proof (valid_at_bound _ _ _ Hv) as [Hp Hl].
  destruct Hv as [_ [_ Hsig]]. split; [done|].
  rewrite len_app. unfold len in *. rewrite length_take, length_drop. lia.
Qed.

(** Nothing to find.  On a buffer shorter than 88 bytes, and on a buffer in
    which no unit of type 6 starts, the extractor returns
    [(None, None)]. *)
Theorem extractor_not_found (data : list byte)
    (Hdata : len data < 88 \/ forall q, ~ nal data q 6) :
  _extract_signature_and_remove_watermark data = Ok (None, None).
Proof.
  destruct (extract_spec data) as [(p & sig & Hv & _)|[_ E]]; [exfalso|done].
  destruct Hdata as [Hshort|Hno].
  - apply valid_at_bound in Hv. lia.
  - destruct Hv as [Hn _]. by apply Hno in Hn.
Qed.

Lemma extractor_not_found_witness :
  _extract_signature_and_remove_watermark [] = Ok (None, None)
  /\ _extract_signature_and_remove_watermark
       (video_two_runs ++ video_two_runs ++ video_two_runs)
     = Ok (None, None).
Proof.
  split.
  - apply (extractor_not_found []). left. by vm_compute.
  - apply (extractor_not_found (video_two_runs ++ video_two_runs ++ video_two_runs)).
    right. apply no_nal_by_check. by vm_compute.
Defined.

(** Embedding and extracting compose on a stream without SEI units: for a
    64-byte signature the extractor returns the signature and the stream,
    and on the restored stream it finds nothing more. *)
Theorem watermark_is_removed_completely (B S : list byte)
    (Hsig : length S = 64%nat) (Hno : forall q, ~ nal B q 6) :
  exists wm, _embed_in_sei_messages B S = Ok wm
    /\ len wm = len B + 89
    /\ _extract_signature_and_remove_watermark wm = Ok (Some S, Some B)
    /\ _extract_signature_and_remove_watermark B = Ok (None, None).
Proof.
  pose proof (roundtrip_without_sei B S Hsig Hno) as Hrt.
  destruct (find_best_insertion_point_total B) as (off & Hoff & Hpos).
  pose proof (create_sei_payload_64 S Hsig) as Hsei.
  pose proof (embed_spec B S _ off Hsei Hoff Hpos) as Hwm.
  rewrite Hwm in Hrt. cbn [bind] in Hrt.
  eexists. split; [exact Hwm|]. split; [|split; [exact Hrt|]].
  - rewrite !len_app, sei_unit_length by done.
    rewrite <- (take_drop (Z.to_nat off) B) at 3. rewrite len_app. lia.
  - destruct (extract_spec B) as [(p & sig & [Hn _] & _)|[_ E]]; [|done].
    by apply Hno in Hn.
Qed.

Lemma watermark_is_removed_completely_witness :
  exists wm, _embed_in_sei_messages video_idr sig_cd = Ok wm
    /\ len wm = len video_idr + 89
    /\ _extract_signature_and_remove_watermark wm = Ok (Some sig_cd, Some video_idr)
    /\ _extract_signature_and_remove_watermark video_idr = Ok (None, None).
Proof.
  apply (watermark_is_removed_completely video_idr sig_cd); [reflexivity|].
  apply no_nal_by_check. by vm_compute.
Defined.


(** ** Files: embedding, restoring and verifying *)

Lemma embed_always_succeeds (B S : list byte) : exists wm, _embed_in_sei_messages B S = Ok wm.
Proof.
  destruct (find_best_insertion_point_total B) as (off & Hoff & Hpos).
  destruct (create_sei_payload_any S) as (k & b & _ & _ & Hsei).
  eexists. by apply (embed_spec B S _ off Hsei Hoff Hpos).
Qed.


Lemma extract_file_found `{Env} (fs : files) (path : string) (rout : option string)
    (wm sig restored : list byte) :
  fs !! path = Some wm ->
  _extract_signature_and_remove_watermark wm = Ok (Some sig, Some restored) ->
  sig <> [] -> restored <> [] ->
  let rp := default (splitext_base path +:+ "_restored.h264") rout in
  extract_signature_and_restore_video fs path rout
  = Ok (<[rp := restored]> fs, Some (sig, rp)).
Proof.
  intros Hfile Hex Hsig Hres. cbn zeta.
  unfold extract_signature_and_restore_video, read_file.
  rewrite Hfile. cbn [bind]. rewrite Hex. cbn [bind].
  destruct sig as [|b s]; [done|]. destruct restored as [|c r]; [done|].
  by destruct rout.
Qed.





(** The self-contained verification, unfolded over the file system. *)
Lemma self_contained_unfold `{Env} (self : GOSTVideoSteganographer)
    (fs : files) (path : string) (wm sig restored : list byte) :
  fs !! path = Some wm ->
  _extract_signature_and_remove_watermark wm = Ok (Some sig, Some restored) ->
  sig <> [] -> restored <> [] ->
  let rp := splitext_base path +:+ "_restored.h264" in
  let fs1 := <[rp := restored]> fs in
  verify_watermarked_video_self_contained self fs path
  = (do is_valid <- verify_video self fs1 rp sig;
     Ok (delete rp fs1,
         [ExpectedSize (default 0 (len <$> fs1 !! path) - len sig - 16 - 11);
          ActualSize (len restored)],
         is_valid)).
Proof.
  intros Hfile Hex Hsig Hres. cbn zeta.
  unfold verify_watermarked_video_self_contained.
  rewrite (extract_file_found fs path None wm sig restored) by done.
  cbn [bind default].
  destruct sig as [|b s]; [done|]. cbn [truthy negb orb].
  rewrite restored_path_not_empty.
  set (rp := splitext_base path +:+ "_restored.h264").
  destruct (verify_video self (<[rp := restored]> fs) rp (b :: s)) as [v|e|]; try done.
  cbn [bind]. unfold getsize. rewrite lookup_insert_eq.
  assert (is_Some (<[rp := restored]> fs !! path)) as [x Hx].
  { rewrite lookup_insert. case_decide; eauto. }
  rewrite Hx. cbn [bind]. rewrite bool_decide_eq_true_2 by eauto. done.
Qed.

(** The verdict on a file the embedder wrote.  For a non-empty stream [B]
    without SEI units and a 64-byte signature [S], the self-contained
    verification of the embedded file returns what the library says of [S]
    against the digest of [B] ([False] if the library raises), and removes
    the restored file.  The expected size it prints is two bytes less than
    the size of the restored file: the arithmetic takes off 91 bytes where
    the unit has 89. *)
Theorem self_contained_verdict_on_embedded_file `{Env}
    (self : GOSTVideoSteganographer) (fs : files) (path : string)
    (B S wm pk : list byte)
    (Hwm : _embed_in_sei_messages B S = Ok wm) (Hfile : fs !! path = Some wm)
    (Hne : B <> []) (Hsig : length S = 64%nat) (Hno : forall q, ~ nal B q 6)
    (Hso : sign_obj self = true) (Hpk : public_key self = Some pk)
    (Hrp : splitext_base path +:+ "_restored.h264" <> path) :
  let rp := splitext_base path +:+ "_restored.h264" in
  verify_watermarked_video_self_contained self fs path
  = Ok (delete rp fs,
        [ExpectedSize (len B - 2); ActualSize (len B)],
        default false (gost_verify pk (streebog256 B) S)).
Proof.
  cbn zeta. pose proof (roundtrip_without_sei B S Hsig Hno) as Hrt.
  rewrite Hwm in Hrt. cbn [bind] in Hrt.
  rewrite (self_contained_unfold self fs path wm S B Hfile Hrt); [|by intros ->|done].
  rewrite (verify_video_written self fs _ B S pk Hso Hpk). cbn [bind].
  rewrite lookup_insert_ne, Hfile by done. cbn.
  rewrite delete_insert_eq.
  assert (len wm = len B + 89) as ->.
  { destruct (find_best_insertion_point_total B) as (off & Hoff & Hpos).
    pose proof (embed_spec B S _ off (create_sei_payload_64 S Hsig) Hoff Hpos) as E.
    assert (wm = take (Z.to_nat off) B ++ sei_unit S ++ drop (Z.to_nat off) B) as ->
      by congruence.
    rewrite !len_app, sei_unit_length by done.
    rewrite <- (take_drop (Z.to_nat off) B) at 3. rewrite len_app. lia. }
  unfold len at 2. rewrite Hsig.
  replace (len B + 89 - Z.of_nat 64 - 16 - 11) with (len B - 2) by lia. done.
Qed.

Lemma self_contained_verdict_on_embedded_file_witness :
  @verify_watermarked_video_self_contained sample_env sample_verifier
    {[ "video.h264"%string := video_signed ]} "video.h264"
  = Ok (delete "video.h264_restored.h264"%string {[ "video.h264"%string := video_signed ]},
        [ExpectedSize (len video_sps_pps_slice - 2); ActualSize (len video_sps_pps_slice)],
        default false
          (@gost_verify sample_env [x01]
             (@streebog256 sample_env video_sps_pps_slice) sig_ab)).
Proof.
  apply (@self_contained_verdict_on_embedded_file sample_env sample_verifier
           _ "video.h264" video_sps_pps_slice sig_ab video_signed [x01]).
  - by vm_compute.
  - apply lookup_singleton_eq.
  - done.
  - reflexivity.
  - apply no_nal_by_check. by vm_compute.
  - reflexivity.
  - reflexivity.
  - by vm_compute.
Defined.

(** ** The callers: [verify.py] and [sign.py] *)

Lemma extractor_cases (data : list byte) :
  _extract_signature_and_remove_watermark data = Ok (None, None)
  \/ exists b s restored,
       _extract_signature_and_remove_watermark data = Ok (Some (b :: s), Some restored).
Proof.
  destruct (extract_spec data) as [(p & sig & [_ [_ Hl]] & _ & ->)|[_ ->]]; [|by left].
  right. destruct sig as [|b s]; [done|]. by eexists _, _, _.
Qed.

(** [VideoVerifier.verify_video] never raises.  It answers [True] only when
    the signature object and the public key are there, the file exists, the
    extractor finds a signature and restored data in it, and the library
    accepts that signature for the digest of the restored data; without a
    key, without a signature object or without the file it answers
    [False]. *)
Theorem verifier_true_means_verified `{Env} (signer : GOSTVideoSteganographer)
    (fs : files) (video_path : string) :
  exists b, VideoVerifier.verify_video signer fs video_path = Ok b
    /\ (b = true ->
        exists pk wm sig restored,
          sign_obj signer = true /\ public_key signer = Some pk
          /\ fs !! video_path = Some wm
          /\ _extract_signature_and_remove_watermark wm = Ok (Some sig, Some restored)
          /\ gost_verify pk (streebog256 restored) sig = Some true)
    /\ (public_key signer = None \/ sign_obj signer = false
        \/ fs !! video_path = None -> b = false).
Proof.
  unfold VideoVerifier.verify_video.
  destruct (public_key signer) as [pk|] eqn:Hpk; cycle 1.
  { exists false. split; [done|]. split; [done|]. done. }
  destruct (fs !! video_path) as [wm|] eqn:Hfile; cycle 1.
  { exists false. unfold verify_watermarked_video_self_contained,
      extract_signature_and_restore_video, read_file. rewrite Hfile. done. }
  destruct (extractor_cases wm) as [Hex|(b & s & restored & Hex)].
  { exists false. unfold verify_watermarked_video_self_contained,
      extract_signature_and_restore_video, read_file. rewrite Hfile. cbn [bind].
    rewrite Hex. split; [done|]. split; [done|]. done. }
  destruct restored as [|c r].
  { exists false. unfold verify_watermarked_video_self_contained,
      extract_signature_and_restore_video, read_file. rewrite Hfile. cbn [bind].
    rewrite Hex. split; [done|]. split; [done|]. done. }
  rewrite (self_contained_unfold signer fs video_path wm (b :: s) (c :: r) Hfile Hex)
    by done.
  destruct (sign_obj signer) eqn:Hso; cycle 1.
  { exists false. unfold verify_video. rewrite Hso. split; [done|]. split; [done|]. done. }
  rewrite (verify_video_written signer fs _ (c :: r) (b :: s) pk Hso Hpk). cbn [bind].
  eexists. split; [done|]. split.
  - intros Hb. exists pk, wm, (b :: s), (c :: r).
    split; [done|]. split; [done|]. split; [done|]. split; [done|].
    destruct (gost_verify pk (streebog256 (c :: r)) (b :: s)) as [[|]|]; done.
  - intros [?|[?|?]]; done.
Qed.



(** The flow of [simple_demo].  A fresh object, [generate_keys],
    [sign_video], [embed_signature_as_watermark] and
    [verify_watermarked_video_self_contained] in a row end with [True], for
    a non-empty stream without SEI units and a library whose 64-byte
    signature of the digest verifies under the generated public key. *)
Theorem simple_demo_flow `{Env} `{SignEnv} (fs : files) (video_path : string)
    (token pk B S : list byte)
    (Hnew : gost_new = true)
    (Hgen : gost_public_key_generate token = Ok pk)
    (Hfile : fs !! video_path = Some B) (Hne : B <> [])
    (Hno : forall q, ~ nal B q 6)
    (Hsign : gost_sign token (streebog256 B) = Ok S) (Hsig : length S = 64%nat)
    (Hverify : gost_verify pk (streebog256 B) S = Some true) :
  exists signer fs1 wpath fs2 printed,
    generate_keys __init__ token = Ok (signer, (token, pk))
    /\ sign_video signer fs video_path = Ok (S, streebog256 B)
    /\ embed_signature_as_watermark fs video_path S None = Ok (fs1, Some wpath)
    /\ verify_watermarked_video_self_contained signer fs1 wpath
       = Ok (fs2, printed, true).
Proof.
  pose proof (roundtrip_without_sei B S Hsig Hno) as Hrt.
  destruct (embed_always_succeeds B S) as (wm & Hwm). rewrite Hwm in Hrt.
  cbn [bind] in Hrt.
  set (wpath := splitext_base video_path +:+ "_watermarked.h264").
  exists (set_key_pair __init__ (Some token) (Some pk)), (<[wpath := wm]> fs), wpath.
  eexists _, _. split; [|split; [|split]].
  - unfold generate_keys, __init__, _initialize_signer. cbn. rewrite Hnew. cbn.
    by rewrite Hgen.
  - unfold sign_video, hash_video_file. cbn. rewrite Hnew, Hfile. cbn [bind].
    by rewrite Hsign.
  - unfold embed_signature_as_watermark, read_file. rewrite Hfile. cbn [bind].
    by rewrite Hwm.
  - rewrite (self_contained_unfold _ _ wpath wm S B);
      [|apply lookup_insert_eq|done|by intros ->|done].
    erewrite verify_video_written; [|cbn; exact Hnew|reflexivity].
    rewrite Hverify. done.
Qed.




Lemma simple_demo_flow_witness :
  exists signer fs1 wpath fs2 printed,
    @generate_keys sample_sign_env (@__init__ sample_sign_env) [x02]
    = Ok (signer, ([x02], [x02]))
    /\ @sign_video sample_env sample_sign_env signer sample_files "video.h264"
       = Ok (sig_ab, @streebog256 sample_env video_idr)
    /\ @embed_signature_as_watermark sample_env sample_files "video.h264" sig_ab None
       = Ok (fs1, Some wpath)
    /\ @verify_watermarked_video_self_contained sample_env signer fs1 wpath
       = Ok (fs2, printed, true).
Proof.
  apply (@simple_demo_flow sample_env sample_sign_env sample_files "video.h264"
           [x02] [x02] video_idr sig_ab).
  - reflexivity.
  - reflexivity.
  - by vm_compute.
  - done.
  - apply no_nal_by_check. by vm_compute.
  - reflexivity.
  - reflexivity.
  - by vm_compute.
Defined.



(** ** More on the codec and on the files *)

(** The reader computes the length of a field as the writer writes it: for
    every value [v >= 0] the number of bytes that
    [_parse_sei_and_get_length] counts for [v] is the number of bytes that
    [_create_sei_payload] emits for it, [v // 255 + 1]. *)
Theorem field_bytes_matches_writer (v : Z) (Hv : 0 <= v) :
  exists field n,
    append_chunked [] v = Ok field /\ field_bytes v = Ok n
    /\ n = len field /\ n = v / 255 + 1.
Proof.
  destruct (append_chunked_spec [] v Hv) as (b & _ & E).
  eexists _, _. split; [exact E|]. split; [by apply field_bytes_spec|].
  split; [|lia]. rewrite app_nil_l, len_app. unfold len.
  rewrite length_replicate. simpl. lia.
Qed.

Lemma field_bytes_matches_writer_witness :
  exists field n,
    append_chunked [] 600 = Ok field /\ field_bytes 600 = Ok n
    /\ n = len field /\ n = 600 / 255 + 1.
Proof. apply (field_bytes_matches_writer 600). lia. Defined.

(** What the self-contained verification does to the files.  When it
    returns, every file other than the restored path is as it was, and
    either nothing changed at all or no file is left at the restored path
    -- also when a file was there before the call. *)
Theorem self_contained_files_after `{Env} (self : GOSTVideoSteganographer)
    (fs fs2 : files) (path : string) (printed : list log_line) (b : bool)
    (Hres : verify_watermarked_video_self_contained self fs path
            = Ok (fs2, printed, b)) :
  let rp := splitext_base path +:+ "_restored.h264" in
  (forall other, other <> rp -> fs2 !! other = fs !! other)
  /\ (fs2 = fs \/ fs2 !! rp = None).
Proof.
  cbn zeta.
  assert (verify_watermarked_video_self_contained self fs path = Ok (fs, [], false)
          -> (forall other, other <> splitext_base path +:+ "_restored.h264" ->
                fs2 !! other = fs !! other)
             /\ (fs2 = fs \/ fs2 !! (splitext_base path +:+ "_restored.h264") = None))
    as Hsame.
  { intros E. rewrite E in Hres. injection Hres as <- _ _. auto. }
  destruct (fs !! path) as [wm|] eqn:Hfile; cycle 1.
  { apply Hsame. unfold verify_watermarked_video_self_contained,
      extract_signature_and_restore_video, read_file. by rewrite Hfile. }
  destruct (extractor_cases wm) as [Hex|(c & s & restored & Hex)].
  { apply Hsame. unfold verify_watermarked_video_self_contained,
      extract_signature_and_restore_video, read_file. rewrite Hfile. cbn [bind].
    by rewrite Hex. }
  destruct restored as [|d r].
  { apply Hsame. unfold verify_watermarked_video_self_contained,
      extract_signature_and_restore_video, read_file. rewrite Hfile. cbn [bind].
    by rewrite Hex. }
  rewrite (self_contained_unfold self fs path wm (c :: s) (d :: r) Hfile Hex) in Hres
    by done.
  destruct (verify_video _ _ _ _) as [v|e|]; [|done..]. cbn [bind] in Hres.
  injection Hres as <- _ _. split.
  - intros other Hne. by rewrite lookup_delete_ne, lookup_insert_ne.
  - right. apply lookup_delete_eq.
Qed.

Lemma self_contained_files_after_witness :
  exists fs2 printed,
    @verify_watermarked_video_self_contained sample_env sample_verifier
      sample_files_with_old_restored "video.h264" = Ok (fs2, printed, true)
    /\ sample_files_with_old_restored !! "video.h264_restored.h264"%string
       = Some [x00; x01; x02]
    /\ fs2 !! "video.h264_restored.h264"%string = None
    /\ fs2 !! "video.h264"%string = Some video_signed.
Proof.
  assert (@verify_watermarked_video_self_contained sample_env sample_verifier
            sample_files_with_old_restored "video.h264"
          = Ok ({[ "video.h264"%string := video_signed ]},
                [ExpectedSize 25; ActualSize 27], true)) as Hres by (by vm_compute).
  destruct (@self_contained_files_after sample_env _ _ _ _ _ _ Hres) as [Hframe Hrp].
  eexists _, _. split; [exact Hres|]. split; [by vm_compute|]. split.
  - destruct Hrp as [E|E]; [|exact E]. by vm_compute in E.
  - rewrite Hframe; [by vm_compute|done].
Defined.
